(** * chwspi: triggered continuous acquisition over a ring buffer

    A shallow embedding of [chwspi.c] (the ADC SPI communicator for the
    Raspberry Pi) and the properties of its ring buffer, its trigger
    counter and its buffer linearisation.

    Conventions of the embedding.
    - A C [int] is a [Z].  Every value the loops compute stays far inside
      the 32-bit range for the shipped configuration (see
      [continuous_bounds]), so no wrap-around is written out.
    - An [int *] buffer is a [list Z]; [b[k]] is [b !!! Z.to_nat k] and
      [b[k] = v] is [<[Z.to_nat k := v]> b].  All indices the loops form are
      non-negative.
    - The configuration constants [samples], [CHN_AMOUNT] and [threshold]
      are Section variables, so that the theorems hold for every
      configuration; module [Shipped] instantiates them with the values of
      the source.  [blocks] is the constant 1 of the source.
    - The kernel and the C library are the environment: for every tick it
      says what [ioctl] answered, whether [fopen] returned a stream and
      whether the [fprintf] calls succeeded.
    - Dereferencing a null pointer ends the run: the embedding has an
      explicit [Crashed] outcome for it. *)

From Stdlib Require Import ZArith List Lia Bool.
From stdpp Require Import base list numbers.

Local Open Scope Z_scope.

(** [const int blocks = 1;] *)
Definition blocks : Z := 1.

(** [if (x >= n) { x = 0; }], the wrap written at the top of both loops that
    walk the ring; the result is the value of [x] afterwards. *)
Definition wrap (n x : Z) : Z := if x >=? n then 0 else x.

(** What the environment answers during one iteration of the main loop. *)
Record tick_env := {
  ioctl : option (list Z);  (* [None]: ioctl returned < 0; [Some rx]: the bytes received *)
  fopen : bool;             (* [false]: fopen returned NULL *)
  fprintf : bool            (* [false]: an fprintf call reported an error *)
}.

(** The local variables of [main] that the loops read and write. *)
Record state := {
  st_i : Z;
  st_data : list Z;
  st_data_fixed : list Z;
  st_s_counter : Z
}.

(** One call of [write_file] from the continuous loop, as seen from outside:
    the offset handed to [fix_buffer], the linearised window, and the rows
    that reached the file ([None] when an [fprintf] failed). *)
Record capture := {
  cap_offset : Z;
  cap_s_counter : Z;
  cap_window : list Z;
  cap_file : option (list (list Z))
}.

(** Result of one iteration of the continuous loop. *)
Inductive step_result :=
| Next (st : state) (ev : option capture)
| Crash (st : state).

(** Result of a run of the continuous loop. *)
Inductive outcome :=
| Running (st : state)
| Crashed (st : state).

Section Program.

Variables samples CHN_AMOUNT threshold : Z.

(** ** [spi_transfer] *)

(** [((int) (rx[j + 1] & 3) << 8) + rx[j + 2]] *)
Definition rx_reading (rx : list Z) (j : Z) : Z :=
  Z.shiftl (Z.land (rx !!! Z.to_nat (j + 1)) 3) 8 + rx !!! Z.to_nat (j + 2).

(** [spi_transfer]: [NULL] when the ioctl fails, otherwise the buffer in
    which entry [i] (for [i < CHN_AMOUNT * blocks]) was overwritten with the
    reading decoded at [j = 4 * i]. *)
Definition spi_transfer (r : option (list Z)) : option (list Z) :=
  match r with
  | None => None
  | Some rx => Some ((fun i => rx_reading rx (4 * i)) <$> seqZ 0 (CHN_AMOUNT * blocks))
  end.

(** ** [fix_buffer] *)

(** The two arrays of [fix_buffer] and its second loop variable. *)
Record fix_state := {
  fx_i : Z;
  fx_buf : list Z;
  fx_buf_r : list Z
}.

(** Body of the loop of [fix_buffer] at counter [c]:
    [if (i >= samples * CHN_AMOUNT) { i = 0; } buf_r[c] = buf[i];] followed
    by the [i++] of the loop header. *)
Definition fix_step (s : fix_state) (c : Z) : fix_state :=
  let i := wrap (samples * CHN_AMOUNT) (fx_i s) in
  {| fx_i := i + 1;
     fx_buf := fx_buf s;
     fx_buf_r := <[Z.to_nat c := fx_buf s !!! Z.to_nat i]> (fx_buf_r s) |}.

Definition fix_loop (buf buf_r : list Z) (offset : Z) : fix_state :=
  fold_left fix_step (seqZ 0 (samples * CHN_AMOUNT))
    {| fx_i := offset * CHN_AMOUNT; fx_buf := buf; fx_buf_r := buf_r |}.

(** [fix_buffer] returns [buf_r]. *)
Definition fix_buffer (buf buf_r : list Z) (offset : Z) : list Z :=
  fx_buf_r (fix_loop buf buf_r offset).

(** ** [write_file] *)

(** One line of the file: [CHN_AMOUNT - 1] values followed by a comma, then
    the value at the index where the inner loop stopped. *)
Definition csv_row (data : list Z) (i : Z) : list Z :=
  ((fun j => data !!! Z.to_nat (i + j)) <$> seqZ 0 (CHN_AMOUNT - 1))
    ++ [data !!! Z.to_nat (i + Z.max 0 (CHN_AMOUNT - 1))].

(** The lines of the file, for [i = 0, CHN_AMOUNT, 2 * CHN_AMOUNT, ...]
    below [samples * CHN_AMOUNT] (with [CHN_AMOUNT > 0]). *)
Definition csv_rows (data : list Z) : list (list Z) :=
  (fun r => csv_row data (r * CHN_AMOUNT)) <$> seqZ 0 samples.

(** [write_file]: [None] is the crash of [fprintf] on a null stream (the
    result of [fopen] is not tested); otherwise what reached the file. *)
Definition write_file (data : list Z) (e : tick_env) : option (option (list (list Z))) :=
  if fopen e then Some (if fprintf e then Some (csv_rows data) else None)
  else None.

(** ** The continuous loop of [main] *)

(** Body of the loop over the channels at index [j], lines 199 to 204.
    [None] is the crash on reading through [data_buf = NULL]. *)
Definition channel_step (data_buf : option (list Z)) (i : Z)
    (acc : option (list Z * Z)) (j : Z) : option (list Z * Z) :=
  match acc, data_buf with
  | Some (data, s_counter), Some b =>
      let v := b !!! Z.to_nat j in
      Some (<[Z.to_nat (i * CHN_AMOUNT * blocks + j) := v]> data,
            if (s_counter =? 0) && (v >=? threshold) then 1 else s_counter)
  | _, _ => None
  end.

Definition channel_loop (data_buf : option (list Z)) (i : Z)
    (data : list Z) (s_counter : Z) : option (list Z * Z) :=
  fold_left (channel_step data_buf i) (seqZ 0 (CHN_AMOUNT * blocks))
    (Some (data, s_counter)).

(** [(samples*2)/3] *)
Definition sustain : Z := Z.quot (samples * 2) 3.

(** One iteration of [for (i = 0;;i++)], from the test [i >= samples] at its
    top to the [i++] of its header. *)
Definition loop_body (e : tick_env) (st : state) : step_result :=
  let i := wrap samples (st_i st) in
  match channel_loop (spi_transfer (ioctl e)) i (st_data st) (st_s_counter st) with
  | None =>
      Crash {| st_i := i; st_data := st_data st;
               st_data_fixed := st_data_fixed st;
               st_s_counter := st_s_counter st |}
  | Some (data, s0) =>
      let s := if s0 =? 0 then s0 else s0 + 1 in
      if s >=? sustain then
        let data_fixed := fix_buffer data (st_data_fixed st) i in
        match write_file data_fixed e with
        | None =>
            Crash {| st_i := i; st_data := data;
                     st_data_fixed := data_fixed; st_s_counter := s |}
        | Some file =>
            Next {| st_i := i + 1; st_data := data;
                    st_data_fixed := data_fixed; st_s_counter := 0 |}
                 (Some {| cap_offset := i; cap_s_counter := s;
                          cap_window := data_fixed; cap_file := file |})
        end
      else
        Next {| st_i := i + 1; st_data := data;
                st_data_fixed := st_data_fixed st; st_s_counter := s |}
             None
  end.

(** The state in which the loop is entered: [i = 0], [s_counter = 0], and
    two freshly allocated buffers of unknown contents. *)
Definition init (data0 fixed0 : list Z) : state :=
  {| st_i := 0; st_data := data0; st_data_fixed := fixed0; st_s_counter := 0 |}.

(** The first [n] iterations of the continuous loop, with the captures made
    so far, each tagged with the number of the tick (counted from 0 at the
    start of the acquisition) that completed it, most recent first. *)
Fixpoint continuous (env : nat -> tick_env) (data0 fixed0 : list Z) (n : nat)
    : outcome * list (nat * capture) :=
  match n with
  | O => (Running (init data0 fixed0), [])
  | S k =>
      match continuous env data0 fixed0 k with
      | (Running st, log) =>
          match loop_body (env k) st with
          | Next st' None => (Running st', log)
          | Next st' (Some c) => (Running st', (k, c) :: log)
          | Crash st' => (Crashed st', log)
          end
      | halted => halted
      end
  end.

(** ** The single measurement of [main] *)

(** Body of [for (i = 0; i < samples; i += blocks)], lines 220 to 224; the
    k-th iteration has [i = k] since [blocks = 1]. *)
Definition burst_step (env : nat -> tick_env) (acc : option (list Z)) (i : Z)
    : option (list Z) :=
  match acc, spi_transfer (ioctl (env (Z.to_nat i))) with
  | Some data, Some b =>
      Some (fold_left
              (fun d j => <[Z.to_nat (i * CHN_AMOUNT * blocks + j) := b !!! Z.to_nat j]> d)
              (seqZ 0 (CHN_AMOUNT * blocks)) data)
  | Some data, None => if 0 <? CHN_AMOUNT * blocks then None else Some data
  | None, _ => None
  end.

Definition burst_loop (env : nat -> tick_env) (data0 : list Z) : option (list Z) :=
  fold_left (burst_step env) (seqZ 0 samples) (Some data0).

(** What [main] has done when it returns. *)
Record finished := {
  fin_state : state;
  fin_file : option (list (list Z))
}.

(** The [else] branch of [main] and what follows it: the loop, then the
    single call of [write_file] on [data], lines 235 and 236, which uses the
    answer of the environment after the last tick.  [None] is a crash. *)
Definition main_single (env : nat -> tick_env) (data0 fixed0 : list Z)
    : option finished :=
  match burst_loop env data0 with
  | None => None
  | Some data =>
      match write_file data (env (Z.to_nat samples)) with
      | None => None
      | Some file =>
          Some {| fin_state := {| st_i := Z.max 0 samples; st_data := data;
                                  st_data_fixed := fixed0; st_s_counter := 0 |};
                  fin_file := file |}
      end
  end.

(** [main], with the macro [MODE] as a parameter.  With [MODE] non-zero the
    loop never ends, so [main] does not return and is observed through the
    prefixes of its run; with [MODE = 0] it returns after one measurement. *)
Inductive main_result :=
| Loops (run : nat -> outcome * list (nat * capture))
| Returns (r : option finished).

Definition main (MODE : Z) (env : nat -> tick_env) (data0 fixed0 : list Z)
    : main_result :=
  if MODE =? 0 then Returns (main_single env data0 fixed0)
  else Loops (continuous env data0 fixed0).

End Program.

(** * Description of a run

    Closed forms of what the loops compute, used to state the properties.
    Each is proved equal to what the program does ([channel_loop_spec],
    [fix_buffer_rotate], [continuous_spec]). *)

(** Some reading of the tick is at or above the threshold. *)
Definition crossing (threshold : Z) (b : list Z) : bool :=
  existsb (fun v => v >=? threshold) b.

(** The counter after the loop over the channels of a tick with readings
    [b], entered with counter [s]. *)
Definition scan (threshold s : Z) (b : list Z) : Z :=
  if s =? 0 then (if crossing threshold b then 1 else 0) else s.

(** The buffer after the readings [b] were stored in slot [i]. *)
Definition ring_write (CHN_AMOUNT : Z) (data : list Z) (i : Z) (b : list Z) : list Z :=
  take (Z.to_nat (i * CHN_AMOUNT)) data ++ b
    ++ drop (Z.to_nat (i * CHN_AMOUNT) + length b)%nat data.

Section Description.

Variables samples CHN_AMOUNT threshold : Z.

(** The readings of a tick: what [spi_transfer] leaves in [data_buf]. *)
Definition readings (e : tick_env) : list Z :=
  default [] (spi_transfer CHN_AMOUNT (ioctl e)).

(** [if (s_counter) { s_counter++; }] *)
Definition bump (s : Z) : Z := if s =? 0 then s else s + 1.

(** The counter after a tick with readings [b], and whether the tick
    completed the window. *)
Definition trigger (s : Z) (b : list Z) : Z * bool :=
  let s1 := bump (scan threshold s b) in
  if s1 >=? sustain samples then (0, true) else (s1, false).

(** [s_counter] after the first [n] ticks. *)
Fixpoint counter_at (env : nat -> tick_env) (n : nat) : Z :=
  match n with
  | O => 0
  | S k => fst (trigger (counter_at env k) (readings (env k)))
  end.

(** Tick [k] completes a window. *)
Definition completes_at (env : nat -> tick_env) (k : nat) : bool :=
  snd (trigger (counter_at env k) (readings (env k))).

(** The slot of the ring that tick [k] is written to. *)
Definition slot (k : nat) : Z := Z.of_nat k mod samples.

(** [data] after the first [n] ticks. *)
Fixpoint ring_at (env : nat -> tick_env) (data0 : list Z) (n : nat) : list Z :=
  match n with
  | O => data0
  | S k => ring_write CHN_AMOUNT (ring_at env data0 k) (slot k) (readings (env k))
  end.

(** What [fix_buffer] returns when it is called at tick [t]. *)
Definition window_at (env : nat -> tick_env) (data0 : list Z) (t : nat) : list Z :=
  rotate (Z.to_nat (slot t * CHN_AMOUNT)) (ring_at env data0 (S t)).

(** The capture made at tick [t], if that tick completes a window. *)
Definition capture_at (env : nat -> tick_env) (data0 : list Z) (t : nat) : capture :=
  {| cap_offset := slot t;
     cap_s_counter := bump (scan threshold (counter_at env t) (readings (env t)));
     cap_window := window_at env data0 t;
     cap_file := if fprintf (env t)
                 then Some (csv_rows samples CHN_AMOUNT (window_at env data0 t))
                 else None |}.

(** The captures of the first [n] ticks, most recent first. *)
Fixpoint log_at (env : nat -> tick_env) (data0 : list Z) (n : nat)
    : list (nat * capture) :=
  match n with
  | O => []
  | S k => if completes_at env k
           then (k, capture_at env data0 k) :: log_at env data0 k
           else log_at env data0 k
  end.

(** [data_fixed] after the first [n] ticks: the window of the last capture. *)
Definition fixed_at (env : nat -> tick_env) (data0 fixed0 : list Z) (n : nat) : list Z :=
  match log_at env data0 n with
  | [] => fixed0
  | (_, c) :: _ => cap_window c
  end.

(** The variables of [main] after the first [n] ticks. *)
Definition state_at (env : nat -> tick_env) (data0 fixed0 : list Z) (n : nat) : state :=
  {| st_i := match n with O => 0 | S k => slot k + 1 end;
     st_data := ring_at env data0 n;
     st_data_fixed := fixed_at env data0 fixed0 n;
     st_s_counter := counter_at env n |}.

(** The counter and the ticks that completed a window, most recent first,
    in one pass over the first [n] ticks. *)
Fixpoint trigger_run (env : nat -> tick_env) (n : nat) : Z * list nat :=
  match n with
  | O => (0, [])
  | S k =>
      let (s, ticks) := trigger_run env k in
      let (s', complete) := trigger s (readings (env k)) in
      (s', if complete then k :: ticks else ticks)
  end.

(** The tick at which the counter started at tick [t0] reaches [sustain]. *)
Definition completion_tick (t0 : nat) : nat :=
  (t0 + Z.to_nat (sustain samples - 2))%nat.

(** Tick [k] does not end the run: its transfer succeeds, and the file can
    be opened if the tick completes a window. *)
Definition tick_ok (env : nat -> tick_env) (k : nat) : Prop :=
  ioctl (env k) <> None /\ (completes_at env k = true -> fopen (env k) = true).

End Description.

(** * Configurations and environments used in the examples *)

(** The constants of the source. *)
Module Shipped.
Definition samples : Z := 20000.
Definition CHN_AMOUNT : Z := 4.
Definition threshold : Z := 450.
End Shipped.

(** The bytes an MCP3008 puts in the 4-byte slot of a channel for the 10-bit
    reading [v]: the two high bits at the end of the second byte, the low
    eight bits in the third. *)
Definition mcp3008_frame (v : Z) : list Z := [0; v / 256; v mod 256; 0].

(** A tick on which the transfer succeeds with readings [vs] and the file,
    if one is written, can be opened and written. *)
Definition good_tick (vs : list Z) : tick_env :=
  {| ioctl := Some (vs ≫= mcp3008_frame); fopen := true; fprintf := true |}.

(** A buffer as [malloc] may return it: [len] values never written by the
    program, shown as [-1], which no reading can be. *)
Definition fresh (len : Z) : list Z := replicate (Z.to_nat len) (-1).

(** Channel 0 reads 500 at tick 1000 and 0 otherwise; the other channels
    read 0. *)
Definition env_latency (k : nat) : tick_env :=
  good_tick [if (k =? Z.to_nat 1000)%nat then 500 else 0; 0; 0; 0].

(** Channel 0 reads 500 at tick 10000 only; channels 1 and 2 carry the
    number of the tick (quotient and remainder by 400, both below the
    threshold), so that ticks can be told apart in the window. *)
Definition env_numbered (k : nat) : tick_env :=
  good_tick [if (k =? Z.to_nat 10000)%nat then 500 else 0;
             Z.of_nat k / 400; Z.of_nat k mod 400; 0].

(** Every channel reads 500 from the first tick on. *)
Definition env_loud (k : nat) : tick_env := good_tick [500; 500; 500; 500].

(** As [env_loud], but [fopen] returns [NULL]. *)
Definition env_no_file (k : nat) : tick_env :=
  {| ioctl := ioctl (good_tick [500; 500; 500; 500]);
     fopen := false; fprintf := true |}.

(** A small configuration, [samples = 6] and [CHN_AMOUNT = 2], on which runs
    can be evaluated in full: channel 0 reads 500 at tick 3 only, channel 1
    carries the number of the tick. *)
Definition env_small (k : nat) : tick_env :=
  good_tick [if (k =? 3)%nat then 500 else 0; Z.of_nat k].

(** As [env_small], with the transfer of tick 2 failing. *)
Definition env_small_broken (k : nat) : tick_env :=
  if (k =? 2)%nat then {| ioctl := None; fopen := true; fprintf := true |}
  else env_small k.

(** As [env_small], with the first reading at the threshold at tick 1. *)
Definition env_small_early (k : nat) : tick_env :=
  good_tick [if (k =? 1)%nat then 450 else 0; Z.of_nat k].

(** The readings of six ticks of two channels, laid out as in the ring. *)
Definition small_ring : list Z := [10; 11; 20; 21; 30; 31; 40; 41; 50; 51; 60; 61].

(** The capture that [env_small] completes at tick 5. *)
Definition small_capture : capture :=
  Eval vm_compute in capture_at 6 2 450 env_small (fresh 12) 5.

(** The capture that [env_small_early] completes at tick 3. *)
Definition small_early_capture : capture :=
  Eval vm_compute in capture_at 6 2 450 env_small_early (fresh 12) 3.

(** The state after the first [n] ticks of a run that is still going. *)
Definition state_after (samples CHN_AMOUNT threshold : Z) (env : nat -> tick_env)
    (data0 fixed0 : list Z) (n : nat) : state :=
  match (continuous samples CHN_AMOUNT threshold env data0 fixed0 n).1 with
  | Running st | Crashed st => st
  end.

(** [env_small_broken] before the tick that fails. *)
Definition small_broken_state : state :=
  Eval vm_compute in state_after 6 2 450 env_small_broken (fresh 12) (fresh 12) 2.

(** [env_small] while it counts, after tick 3. *)
Definition small_counting_state : state :=
  Eval vm_compute in state_after 6 2 450 env_small (fresh 12) (fresh 12) 4.

(** [env_small_early] while idle, after tick 0. *)
Definition small_idle_state : state :=
  Eval vm_compute in state_after 6 2 450 env_small_early (fresh 12) (fresh 12) 1.

(** * Setting up the transfers: [init_spi] and the start of [main] *)

(** [const int clockRate = 3600000;] *)
Definition clockRate : Z := 3600000.

(** The fields of [struct spi_ioc_transfer] that [init_spi] sets; the other
    fields stay 0 after the [memset] and are left out.  [tx_buf] and
    [rx_buf] are pointers into [tx] and [rx]: the embedding keeps the index
    they point at. *)
Record spi_ioc_transfer := {
  tx_buf : Z;
  rx_buf : Z;
  len : Z;
  speed_hz : Z;
  cs_change : Z
}.

(** An element of the array after [memset(spitr, 0, ...)]. *)
Definition spitr_zero : spi_ioc_transfer :=
  {| tx_buf := 0; rx_buf := 0; len := 0; speed_hz := 0; cs_change := 0 |}.

(** Storing an [int] in an [unsigned char]. *)
Definition to_uchar (v : Z) : Z := v mod 256.

(** [memset(p, 0, n)] on a byte buffer. *)
Definition memset_zero (p : list Z) (n : Z) : list Z :=
  replicate (Z.to_nat n `min` length p) 0 ++ drop (Z.to_nat n) p.

Section Setup.

Variable CHN_AMOUNT : Z.
Variable channels : list Z.

(** [1 << 7 | channels[j] << 4], as stored in [tx]. *)
Definition command (j : Z) : Z :=
  to_uchar (Z.lor (Z.shiftl 1 7) (Z.shiftl (channels !!! Z.to_nat j) 4)).

(** Body of the inner loop of [init_spi], lines 68 to 88 (MCP3008
    single-ended preset), on [tx] and the array of transfers. *)
Definition init_spi_body (i : Z) (acc : list Z * list spi_ioc_transfer) (j : Z)
    : list Z * list spi_ioc_transfer :=
  let k := i * CHN_AMOUNT + j in
  (<[Z.to_nat (k * 4 + 1) := command j]> (<[Z.to_nat (k * 4) := 1]> acc.1),
   <[Z.to_nat k := {| tx_buf := k * 4; rx_buf := k * 4; len := 3;
                      speed_hz := clockRate; cs_change := 1 |}]> acc.2).

(** [spitr[CHN_AMOUNT * blocks - 1].cs_change = 0;] *)
Definition clear_last_cs (spitr : list spi_ioc_transfer) : list spi_ioc_transfer :=
  alter (fun t => {| tx_buf := tx_buf t; rx_buf := rx_buf t; len := len t;
                     speed_hz := speed_hz t; cs_change := 0 |})
        (Z.to_nat (CHN_AMOUNT * blocks - 1)) spitr.

(** [init_spi]: [None] is the [NULL] returned when [malloc] fails (no byte
    of [tx] is written then); otherwise [tx] as the loops leave it and the
    array of transfers. *)
Definition init_spi (malloc_ok : bool) (tx : list Z)
    : option (list Z * list spi_ioc_transfer) :=
  if malloc_ok then
    let filled :=
      fold_left (fun acc i => fold_left (init_spi_body i) (seqZ 0 CHN_AMOUNT) acc)
        (seqZ 0 blocks)
        (tx, replicate (Z.to_nat (CHN_AMOUNT * blocks)) spitr_zero) in
    Some (filled.1, clear_last_cs filled.2)
  else None.

(** The start of [main], lines 165 to 179, as far as [tx] is concerned:
    [tx] comes from [malloc] with contents [tx0], its first
    [CHN_AMOUNT * blocks] bytes are cleared, and [init_spi] fills it. *)
Definition main_setup (malloc_ok : bool) (tx0 : list Z)
    : option (list Z * list spi_ioc_transfer) :=
  init_spi malloc_ok (memset_zero tx0 (CHN_AMOUNT * blocks)).

End Setup.

(** A capture without what was written to the file. *)
Definition forget_file (c : capture) : capture :=
  {| cap_offset := cap_offset c; cap_s_counter := cap_s_counter c;
     cap_window := cap_window c; cap_file := None |}.

(** [const int channels[CHN_AMOUNT] = {0, 1, 2, 3};] *)
Definition shipped_channels : list Z := [0; 1; 2; 3].

(** As [env_small], with every [fprintf] failing. *)
Definition env_small_full_disk (k : nat) : tick_env :=
  {| ioctl := ioctl (env_small k); fopen := true; fprintf := false |}.

(** The small configuration with channel 0 reading 500 on every tick. *)
Definition env_small_loud (k : nat) : tick_env := good_tick [500; Z.of_nat k].

(** [env_small] after its six ticks. *)
Definition small_final_state : state :=
  Eval vm_compute in state_after 6 2 450 env_small (fresh 12) (fresh 12) 6.

(** [env_small_early] after tick 1, the tick that reads the threshold. *)
Definition small_triggered_state : state :=
  Eval vm_compute in state_after 6 2 450 env_small_early (fresh 12) (fresh 12) 2.

(** Invariant of the loop of [fix_buffer] after [k] iterations, over a ring
    of [N] values read from position [o] on. *)
Record fix_inv (N : Z) (buf buf_r : list Z) (o : Z) (k : nat) (s : fix_state) : Prop := {
  fi_buf : fx_buf s = buf;
  fi_range : 0 <= fx_i s <= N;
  fi_next : wrap N (fx_i s) = (o + Z.of_nat k) mod N;
  fi_len : length (fx_buf_r s) = length buf_r;
  fi_done : forall c, (c < k)%nat ->
      fx_buf_r s !! c = buf !! Z.to_nat ((o + Z.of_nat c) mod N);
  fi_rest : forall c, (k <= c)%nat -> fx_buf_r s !! c = buf_r !! c
}.


(** * Properties *)

Set Default Proof Using "Type*".

(** ** Wrap arithmetic *)

Lemma wrap_mod_succ n x :
  0 < n -> 0 <= x -> wrap n (x mod n + 1) = (x + 1) mod n.
Proof.
  intros Hn Hx. unfold wrap.
  pose proof (Z.mod_pos_bound x n Hn) as Hb.
  pose proof (Z.div_mod x n ltac:(lia)) as Hd.
  destruct (Z.geb_spec (x mod n + 1) n) as [Hge|Hlt].
  - apply (Zmod_unique _ _ (x / n + 1)); lia.
  - apply (Zmod_unique _ _ (x / n)); lia.
Qed.

Lemma wrap_mod_start n x : 0 < n -> 0 <= x <= n -> wrap n x = x mod n.
Proof.
  intros Hn Hx. unfold wrap.
  destruct (Z.geb_spec x n) as [Hge|Hlt].
  - assert (x = n) as -> by lia. by rewrite Z.mod_same by lia.
  - by rewrite Z.mod_small by lia.
Qed.

(** ** Decoding the bytes of a transfer *)

Lemma rx_reading_frame v :
  0 <= v < 1024 -> Z.shiftl (Z.land (v / 256) 3) 8 + v mod 256 = v.
Proof.
  intros Hv. rewrite Z.shiftl_mul_pow2 by lia.
  change 3 with (Z.ones 2). rewrite Z.land_ones by lia.
  rewrite (Z.mod_small (v / 256)).
  - pose proof (Z.div_mod v 256 ltac:(lia)). lia.
  - split; [apply Z.div_pos; lia | apply Z.div_lt_upper_bound; lia].
Qed.

Lemma lookup_frames (vs : list Z) (i : nat) :
  (vs ≫= mcp3008_frame) !! (4 * i + 1)%nat = (fun v => v / 256) <$> vs !! i
  /\ (vs ≫= mcp3008_frame) !! (4 * i + 2)%nat = (fun v => v mod 256) <$> vs !! i.
Proof.
  revert i. induction vs as [|v vs IH]; intros i; [done|].
  rewrite bind_cons. destruct i as [|i]; [done|].
  replace (4 * S i + 1)%nat with (length (mcp3008_frame v) + (4 * i + 1))%nat
    by (simpl; lia).
  replace (4 * S i + 2)%nat with (length (mcp3008_frame v) + (4 * i + 2))%nat
    by (simpl; lia).
  rewrite !lookup_app_r by lia.
  replace (length (mcp3008_frame v) + (4 * i + 1) - length (mcp3008_frame v))%nat
    with (4 * i + 1)%nat by lia.
  replace (length (mcp3008_frame v) + (4 * i + 2) - length (mcp3008_frame v))%nat
    with (4 * i + 2)%nat by lia.
  apply IH.
Qed.

(** The readings of a good tick are the readings it was built from. *)
Lemma readings_good_tick (CHN_AMOUNT : Z) (vs : list Z) :
  length vs = Z.to_nat CHN_AMOUNT ->
  Forall (fun v => 0 <= v < 1024) vs ->
  readings CHN_AMOUNT (good_tick vs) = vs.
Proof.
  intros Hlen Hvs. unfold readings, good_tick, spi_transfer, blocks. simpl.
  rewrite Z.mul_1_r. apply list_eq. intros i. rewrite list_lookup_fmap.
  destruct (decide (i < length vs)%nat) as [Hi|Hi].
  - rewrite lookup_seqZ_lt by lia. simpl.
    destruct (lookup_lt_is_Some_2 vs i Hi) as [v Hv]. rewrite Hv. f_equal.
    destruct (lookup_frames vs i) as [H1 H2]. rewrite Hv in H1, H2.
    unfold rx_reading.
    replace (Z.to_nat (4 * (0 + Z.of_nat i) + 1)) with (4 * i + 1)%nat by lia.
    replace (Z.to_nat (4 * (0 + Z.of_nat i) + 2)) with (4 * i + 2)%nat by lia.
    rewrite !list_lookup_total_alt, H1, H2. simpl.
    apply rx_reading_frame. by apply (proj1 (Forall_lookup _ _) Hvs i).
  - rewrite lookup_seqZ_ge by lia. simpl. symmetry. apply lookup_ge_None. lia.
Qed.

(** ** The loop over the channels *)

Section Channels.

Variables CHN_AMOUNT threshold : Z.
Hypothesis CHN_AMOUNT_pos : 0 < CHN_AMOUNT.

Lemma scan_snoc s b v :
  scan threshold s (b ++ [v]) =
  if (scan threshold s b =? 0) && (v >=? threshold) then 1 else scan threshold s b.
Proof.
  unfold scan, crossing. rewrite existsb_app. simpl. rewrite orb_false_r.
  destruct (Z.eqb_spec s 0) as [->|Hs].
  - destruct (existsb _ b); simpl; [done|]. by destruct (v >=? threshold).
  - destruct (Z.eqb_spec s 0); [done|]. done.
Qed.

Lemma channel_loop_prefix (b : list Z) (i : Z) (data : list Z) (s : Z) (k : nat) :
  0 <= i -> (k <= length b)%nat ->
  (Z.to_nat (i * CHN_AMOUNT) + length b <= length data)%nat ->
  fold_left (channel_step CHN_AMOUNT threshold (Some b) i) (seqZ 0 (Z.of_nat k))
    (Some (data, s))
  = Some (take (Z.to_nat (i * CHN_AMOUNT)) data ++ take k b
            ++ drop (Z.to_nat (i * CHN_AMOUNT) + k)%nat data,
          scan threshold s (take k b)).
Proof.
  intros Hi Hk Hlen. induction k as [|k IH].
  - rewrite seqZ_nil by lia. simpl. rewrite Nat.add_0_r, take_drop.
    unfold scan, crossing. simpl. by destruct (Z.eqb_spec s 0) as [->|?].
  - rewrite seqZ_S, fold_left_app, IH by lia. simpl.
    destruct (lookup_lt_is_Some_2 b k) as [v Hv]; [lia|].
    rewrite (take_S_r _ _ _ Hv), scan_snoc.
    rewrite Z.add_0_l, list_lookup_total_alt, Nat2Z.id, Hv. simpl.
    f_equal. f_equal.
    replace (Z.to_nat (i * CHN_AMOUNT * blocks + Z.of_nat k))
      with (length (take (Z.to_nat (i * CHN_AMOUNT)) data) + (length (take k b) + 0))%nat.
    2:{ rewrite !length_take. unfold blocks. lia. }
    rewrite !insert_app_r.
    rewrite <- app_assoc. f_equal. f_equal.
    destruct (drop _ data) as [|x rest] eqn:Hd.
    { apply (f_equal length) in Hd. rewrite length_drop in Hd. simpl in Hd. lia. }
    simpl. f_equal.
    replace (Z.to_nat (i * CHN_AMOUNT) + S k)%nat with (S (Z.to_nat (i * CHN_AMOUNT) + k)) by lia.
    replace (S (Z.to_nat (i * CHN_AMOUNT) + k)) with (Z.to_nat (i * CHN_AMOUNT) + k + 1)%nat by lia.
    by rewrite <- drop_drop, Hd.
Qed.

Lemma channel_loop_spec (b : list Z) (i : Z) (data : list Z) (s : Z) :
  0 <= i -> length b = Z.to_nat CHN_AMOUNT ->
  (Z.to_nat (i * CHN_AMOUNT) + length b <= length data)%nat ->
  channel_loop CHN_AMOUNT threshold (Some b) i data s
  = Some (ring_write CHN_AMOUNT data i b, scan threshold s b).
Proof.
  intros Hi Hb Hlen. unfold channel_loop, blocks.
  rewrite Z.mul_1_r. replace CHN_AMOUNT with (Z.of_nat (length b)) at 2 by lia.
  rewrite channel_loop_prefix by (done || lia).
  by rewrite firstn_all.
Qed.

Lemma channel_loop_null (i : Z) (data : list Z) (s : Z) :
  channel_loop CHN_AMOUNT threshold None i data s = None.
Proof.
  unfold channel_loop, blocks. rewrite seqZ_cons by lia. simpl.
  generalize (seqZ (Z.succ 0) (Z.pred (CHN_AMOUNT * 1))).
  intros l. by induction l.
Qed.

Lemma channel_fold_data (b : list Z) (i : Z) (l : list Z) data s :
  fst <$> fold_left (channel_step CHN_AMOUNT threshold (Some b) i) l (Some (data, s))
  = Some (fold_left
            (fun d j => <[Z.to_nat (i * CHN_AMOUNT * blocks + j) := b !!! Z.to_nat j]> d)
            l data).
Proof.
  revert data s. induction l as [|j l IH]; intros data s; [done|].
  simpl. apply IH.
Qed.

End Channels.

Lemma burst_write_spec (CHN_AMOUNT : Z) (b : list Z) (i : Z) data :
  0 < CHN_AMOUNT ->
  0 <= i -> length b = Z.to_nat CHN_AMOUNT ->
  (Z.to_nat (i * CHN_AMOUNT) + length b <= length data)%nat ->
  fold_left
    (fun d j => <[Z.to_nat (i * CHN_AMOUNT * blocks + j) := b !!! Z.to_nat j]> d)
    (seqZ 0 (CHN_AMOUNT * blocks)) data
  = ring_write CHN_AMOUNT data i b.
Proof.
  intros Hpos Hi Hb Hfit.
  pose proof (channel_fold_data CHN_AMOUNT 0 Hpos b i (seqZ 0 (CHN_AMOUNT * blocks)) data 0)
    as Hfold.
  fold (channel_loop CHN_AMOUNT 0 (Some b) i data 0) in Hfold.
  rewrite channel_loop_spec in Hfold by done. simpl in Hfold. congruence.
Qed.

Section Properties.

Variables samples CHN_AMOUNT threshold : Z.
Hypothesis samples_pos : 0 < samples.
Hypothesis CHN_AMOUNT_pos : 0 < CHN_AMOUNT.

Local Abbreviation N := (samples * CHN_AMOUNT).

(** ** [fix_buffer] *)

Lemma fix_loop_prefix (buf buf_r : list Z) (o : Z) (k : nat) :
  length buf = Z.to_nat N -> length buf_r = Z.to_nat N ->
  0 <= o <= N -> Z.of_nat k <= N ->
  fix_inv N buf buf_r o k
    (fold_left (fix_step samples CHN_AMOUNT) (seqZ 0 (Z.of_nat k))
       {| fx_i := o; fx_buf := buf; fx_buf_r := buf_r |}).
Proof.
  intros Hb Hr Ho. assert (0 < N) as HN by lia.
  induction k as [|k IH]; intros Hk.
  - simpl. split; simpl; try done.
    + rewrite Z.add_0_r. by apply wrap_mod_start.
    + intros; lia.
  - rewrite seqZ_S, fold_left_app. simpl.
    destruct IH as [I1 I2 I3 I4 I5 I6]; [lia|].
    set (s := fold_left _ _ _) in *.
    unfold fix_step. rewrite I3.
    pose proof (Z.mod_pos_bound (o + Z.of_nat k) N HN) as Hm.
    split; simpl.
    + done.
    + lia.
    + rewrite wrap_mod_succ by lia. f_equal. lia.
    + by rewrite length_insert.
    + intros c Hc. rewrite Z.add_0_l, Nat2Z.id.
      destruct (decide (c = k)) as [->|Hne].
      * rewrite list_lookup_insert_eq by lia.
        rewrite I1. rewrite list_lookup_total_alt.
        destruct (lookup_lt_is_Some_2 buf (Z.to_nat ((o + Z.of_nat k) mod N))) as [v Hv]; [lia|].
        by rewrite Hv.
      * rewrite list_lookup_insert_ne by done. apply I5. lia.
    + intros c Hc. rewrite Z.add_0_l, Nat2Z.id.
      rewrite list_lookup_insert_ne by lia. apply I6. lia.
Qed.
Lemma fix_buffer_lookup (buf buf_r : list Z) (offset : Z) (c : nat) :
  length buf = Z.to_nat N -> length buf_r = Z.to_nat N ->
  0 <= offset <= samples -> Z.of_nat c < N ->
  fix_buffer samples CHN_AMOUNT buf buf_r offset !! c
  = buf !! Z.to_nat ((offset * CHN_AMOUNT + Z.of_nat c) mod N).
Proof.
  intros Hb Hr Ho Hc. unfold fix_buffer, fix_loop. fold N.
  assert (0 < N) as HN by lia.
  replace N with (Z.of_nat (Z.to_nat N)) at 1 by lia.
  destruct (fix_loop_prefix buf buf_r (offset * CHN_AMOUNT) (Z.to_nat N))
    as [_ _ _ _ Hdone _]; try done; [nia | lia |].
  apply Hdone. lia.
Qed.

Lemma fix_buffer_length (buf buf_r : list Z) (offset : Z) :
  length (fix_buffer samples CHN_AMOUNT buf buf_r offset) = length buf_r.
Proof.
  unfold fix_buffer, fix_loop.
  generalize (seqZ 0 (samples * CHN_AMOUNT)), (offset * CHN_AMOUNT).
  intros l. revert buf_r. induction l as [|c l IH]; intros buf_r o; [done|].
  simpl. unfold fix_step at 2. simpl. rewrite IH. by rewrite length_insert.
Qed.

Lemma fix_buffer_rotate (buf buf_r : list Z) (offset : Z) :
  length buf = Z.to_nat N -> length buf_r = Z.to_nat N ->
  0 <= offset <= samples ->
  fix_buffer samples CHN_AMOUNT buf buf_r offset
  = rotate (Z.to_nat (offset * CHN_AMOUNT)) buf.
Proof.
  intros Hb Hr Ho. assert (0 < N) as HN by lia.
  apply list_eq. intros c.
  destruct (decide (c < Z.to_nat N)%nat) as [Hc|Hc].
  - rewrite fix_buffer_lookup by (done || lia).
    rewrite lookup_rotate_r by lia. unfold rotate_nat_add.
    rewrite Hb, !Z2Nat.id by nia. done.
  - rewrite !lookup_ge_None_2; [done | |].
    + rewrite length_rotate. lia.
    + rewrite fix_buffer_length. lia.
Qed.


(** ** One iteration of the continuous loop *)

Lemma length_readings e :
  ioctl e <> None -> length (readings CHN_AMOUNT e) = Z.to_nat CHN_AMOUNT.
Proof.
  unfold readings, spi_transfer. destruct (ioctl e) as [rx|]; [|done].
  intros _. simpl. rewrite length_fmap, length_seqZ. unfold blocks. lia.
Qed.

Lemma slot_range k : 0 <= slot samples k < samples.
Proof. unfold slot. by apply Z.mod_pos_bound. Qed.

Lemma length_ring_write data i b :
  0 <= i -> (Z.to_nat (i * CHN_AMOUNT) + length b <= length data)%nat ->
  length (ring_write CHN_AMOUNT data i b) = length data.
Proof.
  intros Hi Hl. unfold ring_write.
  rewrite !length_app, length_take, length_drop. lia.
Qed.

Lemma slot_fits i :
  0 <= i < samples ->
  (Z.to_nat (i * CHN_AMOUNT) + Z.to_nat CHN_AMOUNT <= Z.to_nat N)%nat.
Proof. intros Hi. nia. Qed.

Lemma length_ring_at env data0 n :
  length data0 = Z.to_nat N ->
  (forall k, (k < n)%nat -> ioctl (env k) <> None) ->
  length (ring_at samples CHN_AMOUNT env data0 n) = Z.to_nat N.
Proof.
  intros H0. induction n as [|n IH]; intros Hok; [done|].
  simpl. pose proof (slot_range n) as Hs.
  rewrite length_ring_write; [apply IH; auto | lia |].
  rewrite IH by auto. rewrite length_readings by auto. by apply slot_fits.
Qed.

Lemma loop_body_transfer e st rx :
  ioctl e = Some rx -> 0 <= st_i st <= samples ->
  length (st_data st) = Z.to_nat N ->
  loop_body samples CHN_AMOUNT threshold e st =
  let i := wrap samples (st_i st) in
  let data := ring_write CHN_AMOUNT (st_data st) i (readings CHN_AMOUNT e) in
  let s := bump (scan threshold (st_s_counter st) (readings CHN_AMOUNT e)) in
  if s >=? sustain samples then
    let data_fixed := fix_buffer samples CHN_AMOUNT data (st_data_fixed st) i in
    if fopen e then
      Next {| st_i := i + 1; st_data := data; st_data_fixed := data_fixed;
              st_s_counter := 0 |}
           (Some {| cap_offset := i; cap_s_counter := s; cap_window := data_fixed;
                    cap_file := if fprintf e
                                then Some (csv_rows samples CHN_AMOUNT data_fixed)
                                else None |})
    else Crash {| st_i := i; st_data := data; st_data_fixed := data_fixed;
                  st_s_counter := s |}
  else Next {| st_i := i + 1; st_data := data;
               st_data_fixed := st_data_fixed st; st_s_counter := s |} None.
Proof.
  intros Hrx Hi Hlen. unfold loop_body.
  assert (ioctl e <> None) as Hne by congruence.
  pose proof (length_readings e Hne) as Hb.
  assert (0 <= wrap samples (st_i st) < samples) as Hw.
  { unfold wrap. destruct (Z.geb_spec (st_i st) samples); lia. }
  fold (wrap samples (st_i st)).
  assert (spi_transfer CHN_AMOUNT (ioctl e) = Some (readings CHN_AMOUNT e)) as ->.
  { unfold readings. by rewrite Hrx. }
  rewrite channel_loop_spec; [| done | lia | done |].
  2:{ rewrite Hb, Hlen. by apply slot_fits. }
  fold (bump (scan threshold (st_s_counter st) (readings CHN_AMOUNT e))).
  cbv zeta. destruct (_ >=? sustain samples); [|done].
  unfold write_file. by destruct (fopen e).
Qed.

Lemma loop_body_null e st :
  ioctl e = None ->
  loop_body samples CHN_AMOUNT threshold e st =
  Crash {| st_i := wrap samples (st_i st); st_data := st_data st;
           st_data_fixed := st_data_fixed st; st_s_counter := st_s_counter st |}.
Proof.
  intros He. unfold loop_body. rewrite He. simpl.
  by rewrite channel_loop_null.
Qed.

(** ** Runs of the continuous loop *)

Lemma wrap_index n :
  wrap samples (match n with O => 0 | S k => slot samples k + 1 end)
  = slot samples n.
Proof.
  unfold slot. destruct n as [|k].
  - by rewrite wrap_mod_start by lia.
  - rewrite wrap_mod_succ by lia. f_equal. lia.
Qed.

Lemma log_at_elem env data0 n t c :
  (t, c) ∈ log_at samples CHN_AMOUNT threshold env data0 n <->
  (t < n)%nat /\ completes_at samples CHN_AMOUNT threshold env t = true
  /\ c = capture_at samples CHN_AMOUNT threshold env data0 t.
Proof.
  induction n as [|n IH]; simpl.
  - rewrite elem_of_nil. split; [done | lia].
  - destruct (completes_at _ _ _ env n) eqn:Hn.
    + rewrite elem_of_cons, IH. split.
      * intros [[= -> ->]|(? & ? & ?)]; [auto with lia | auto with lia].
      * intros (Ht & Hc & ->). destruct (decide (t = n)) as [->|?]; [by left|].
        right. auto with lia.
    + rewrite IH. split.
      * intros (? & ? & ?). auto with lia.
      * intros (Ht & Hc & ->). destruct (decide (t = n)) as [->|?]; [congruence|].
        auto with lia.
Qed.

Lemma length_window_at env data0 t :
  length data0 = Z.to_nat N ->
  (forall k, (k <= t)%nat -> ioctl (env k) <> None) ->
  length (window_at samples CHN_AMOUNT env data0 t) = Z.to_nat N.
Proof.
  intros H0 Hok. unfold window_at. rewrite length_rotate.
  apply length_ring_at; [done|]. intros k Hk. apply Hok. lia.
Qed.

Lemma length_fixed_at env data0 fixed0 n :
  length data0 = Z.to_nat N -> length fixed0 = Z.to_nat N ->
  (forall k, (k < n)%nat -> ioctl (env k) <> None) ->
  length (fixed_at samples CHN_AMOUNT threshold env data0 fixed0 n) = Z.to_nat N.
Proof.
  intros H0 Hf Hok. unfold fixed_at.
  destruct (log_at _ _ _ env data0 n) as [|[t c] l] eqn:Hlog; [done|].
  assert ((t, c) ∈ log_at samples CHN_AMOUNT threshold env data0 n) as Hin.
  { rewrite Hlog. by left. }
  apply log_at_elem in Hin as (Ht & _ & ->). simpl.
  apply length_window_at; [done|]. intros k Hk. apply Hok. lia.
Qed.

Lemma continuous_S env data0 fixed0 k :
  continuous samples CHN_AMOUNT threshold env data0 fixed0 (S k) =
  match continuous samples CHN_AMOUNT threshold env data0 fixed0 k with
  | (Running st, log) =>
      match loop_body samples CHN_AMOUNT threshold (env k) st with
      | Next st' None => (Running st', log)
      | Next st' (Some c) => (Running st', (k, c) :: log)
      | Crash st' => (Crashed st', log)
      end
  | halted => halted
  end.
Proof. done. Qed.

(** The iteration for tick [n], started in the state that [n] good ticks
    leave behind. *)
Lemma loop_body_at env data0 fixed0 n rx :
  length data0 = Z.to_nat N -> length fixed0 = Z.to_nat N ->
  (forall k, (k < n)%nat -> ioctl (env k) <> None) ->
  ioctl (env n) = Some rx ->
  loop_body samples CHN_AMOUNT threshold (env n)
    (state_at samples CHN_AMOUNT threshold env data0 fixed0 n) =
  if completes_at samples CHN_AMOUNT threshold env n then
    if fopen (env n) then
      Next (state_at samples CHN_AMOUNT threshold env data0 fixed0 (S n))
           (Some (capture_at samples CHN_AMOUNT threshold env data0 n))
    else
      Crash {| st_i := slot samples n;
               st_data := ring_at samples CHN_AMOUNT env data0 (S n);
               st_data_fixed := window_at samples CHN_AMOUNT env data0 n;
               st_s_counter :=
                 bump (scan threshold (counter_at samples CHN_AMOUNT threshold env n)
                         (readings CHN_AMOUNT (env n))) |}
  else
    Next (state_at samples CHN_AMOUNT threshold env data0 fixed0 (S n)) None.
Proof.
  intros H0 Hf Hok Hrx.
  assert (forall k, (k < S n)%nat -> ioctl (env k) <> None) as Hok'.
  { intros k Hk. destruct (decide (k = n)) as [->|?]; [congruence|]. apply Hok. lia. }
  pose proof (slot_range n) as Hs.
  rewrite (loop_body_transfer _ _ rx); [| done | |].
  2:{ simpl. destruct n; [lia|]. pose proof (slot_range n). lia. }
  2:{ simpl. by apply length_ring_at. }
  cbv zeta. cbn [state_at st_i st_data st_data_fixed st_s_counter].
  rewrite wrap_index.
  change (ring_write CHN_AMOUNT (ring_at samples CHN_AMOUNT env data0 n)
            (slot samples n) (readings CHN_AMOUNT (env n)))
    with (ring_at samples CHN_AMOUNT env data0 (S n)).
  rewrite fix_buffer_rotate; [| by apply length_ring_at | by apply length_fixed_at | lia].
  fold (window_at samples CHN_AMOUNT env data0 n).
  unfold completes_at, trigger at 1. cbv zeta.
  unfold state_at, fixed_at. cbn [log_at counter_at].
  unfold completes_at, trigger. cbv zeta.
  destruct (_ >=? sustain samples) eqn:Hge; simpl; [|done].
  by destruct (fopen (env n)).
Qed.

(** A run in which every transfer succeeds and every file opens is the run
    described by [state_at] and [log_at]. *)
Lemma continuous_spec env data0 fixed0 n :
  length data0 = Z.to_nat N -> length fixed0 = Z.to_nat N ->
  (forall k, (k < n)%nat -> tick_ok samples CHN_AMOUNT threshold env k) ->
  continuous samples CHN_AMOUNT threshold env data0 fixed0 n
  = (Running (state_at samples CHN_AMOUNT threshold env data0 fixed0 n),
     log_at samples CHN_AMOUNT threshold env data0 n).
Proof.
  intros H0 Hf. induction n as [|n IH]; intros Hok; [done|].
  rewrite continuous_S, IH by auto.
  destruct (Hok n) as [Hio Hopen]; [lia|].
  destruct (ioctl (env n)) as [rx|] eqn:Hrx; [|done].
  rewrite (loop_body_at _ _ _ _ rx); [| done | done | | done].
  2:{ intros k Hk. by apply Hok; lia. }
  cbn [log_at]. destruct (completes_at _ _ _ env n); [|done].
  by rewrite Hopen.
Qed.

Lemma continuous_halted env data0 fixed0 n st log :
  continuous samples CHN_AMOUNT threshold env data0 fixed0 n = (Crashed st, log) ->
  forall m, (n <= m)%nat ->
  continuous samples CHN_AMOUNT threshold env data0 fixed0 m = (Crashed st, log).
Proof.
  intros Hn m Hm. induction Hm as [|m Hm IH]; [done|].
  by rewrite continuous_S, IH.
Qed.

Lemma continuous_running_pred env data0 fixed0 n st log :
  continuous samples CHN_AMOUNT threshold env data0 fixed0 (S n) = (Running st, log) ->
  exists st' log',
    continuous samples CHN_AMOUNT threshold env data0 fixed0 n = (Running st', log').
Proof.
  rewrite continuous_S.
  destruct (continuous _ _ _ env data0 fixed0 n) as [[st'|st'] log']; [eauto|done].
Qed.

(** A run that is still going has seen only good ticks. *)
Lemma continuous_running env data0 fixed0 n st log :
  length data0 = Z.to_nat N -> length fixed0 = Z.to_nat N ->
  continuous samples CHN_AMOUNT threshold env data0 fixed0 n = (Running st, log) ->
  forall k, (k < n)%nat -> tick_ok samples CHN_AMOUNT threshold env k.
Proof.
  intros H0 Hf. revert st log. induction n as [|n IH]; intros st log Hrun k Hk; [lia|].
  destruct (continuous_running_pred _ _ _ _ _ _ Hrun) as (st' & log' & Hn).
  specialize (IH _ _ Hn).
  destruct (decide (k = n)) as [->|?]; [|apply IH; lia].
  rewrite continuous_S, (continuous_spec _ _ _ _ H0 Hf IH) in Hrun.
  assert (forall j, (j < n)%nat -> ioctl (env j) <> None) as Hio.
  { intros j Hj. by apply IH. }
  destruct (ioctl (env n)) as [rx|] eqn:Hrx.
  - rewrite (loop_body_at _ _ _ _ rx) in Hrun by done.
    split; [by rewrite Hrx|]. intros Hc. rewrite Hc in Hrun.
    by destruct (fopen (env n)).
  - by rewrite loop_body_null in Hrun.
Qed.

(** The run stops at the first tick whose transfer fails. *)
Lemma continuous_transfer_fails env data0 fixed0 n :
  length data0 = Z.to_nat N -> length fixed0 = Z.to_nat N ->
  (forall k, (k < n)%nat -> tick_ok samples CHN_AMOUNT threshold env k) ->
  ioctl (env n) = None ->
  forall m, (n < m)%nat ->
  continuous samples CHN_AMOUNT threshold env data0 fixed0 m =
  (Crashed {| st_i := slot samples n;
              st_data := ring_at samples CHN_AMOUNT env data0 n;
              st_data_fixed := fixed_at samples CHN_AMOUNT threshold env data0 fixed0 n;
              st_s_counter := counter_at samples CHN_AMOUNT threshold env n |},
   log_at samples CHN_AMOUNT threshold env data0 n).
Proof.
  intros H0 Hf Hok Hio m Hm.
  apply (continuous_halted _ _ _ (S n)); [|lia].
  rewrite continuous_S, continuous_spec, loop_body_null by done.
  cbn [state_at st_i st_data st_data_fixed st_s_counter].
  by rewrite wrap_index.
Qed.

(** The run stops at the first capture whose file cannot be opened. *)
Lemma continuous_open_fails env data0 fixed0 n rx :
  length data0 = Z.to_nat N -> length fixed0 = Z.to_nat N ->
  (forall k, (k < n)%nat -> tick_ok samples CHN_AMOUNT threshold env k) ->
  ioctl (env n) = Some rx ->
  completes_at samples CHN_AMOUNT threshold env n = true ->
  fopen (env n) = false ->
  forall m, (n < m)%nat ->
  continuous samples CHN_AMOUNT threshold env data0 fixed0 m =
  (Crashed {| st_i := slot samples n;
              st_data := ring_at samples CHN_AMOUNT env data0 (S n);
              st_data_fixed := window_at samples CHN_AMOUNT env data0 n;
              st_s_counter :=
                bump (scan threshold (counter_at samples CHN_AMOUNT threshold env n)
                        (readings CHN_AMOUNT (env n))) |},
   log_at samples CHN_AMOUNT threshold env data0 n).
Proof.
  intros H0 Hf Hok Hrx Hc Hopen m Hm.
  apply (continuous_halted _ _ _ (S n)); [|lia].
  rewrite continuous_S, continuous_spec by done.
  rewrite (loop_body_at _ _ _ _ rx); [| done | done | | done].
  2:{ intros k Hk. by apply Hok. }
  by rewrite Hc, Hopen.
Qed.

(** ** The trigger counter *)

Lemma trigger_idle_quiet b :
  1 <= sustain samples -> crossing threshold b = false ->
  trigger samples threshold 0 b = (0, false).
Proof.
  intros Hs Hb. unfold trigger, scan, bump. rewrite Hb. simpl.
  by destruct (Z.geb_spec 0 (sustain samples)); [lia|].
Qed.

Lemma trigger_idle_crossing b :
  crossing threshold b = true ->
  trigger samples threshold 0 b
  = if 2 >=? sustain samples then (0, true) else (2, false).
Proof. intros Hb. unfold trigger, scan, bump. by rewrite Hb. Qed.

Lemma scan_counting s b : s <> 0 -> scan threshold s b = s.
Proof. intros Hs. unfold scan. by destruct (Z.eqb_spec s 0). Qed.

Lemma bump_counting s : s <> 0 -> bump s = s + 1.
Proof. intros Hs. unfold bump. by destruct (Z.eqb_spec s 0). Qed.

Lemma trigger_counting s b :
  s <> 0 ->
  trigger samples threshold s b
  = if s + 1 >=? sustain samples then (0, true) else (s + 1, false).
Proof.
  intros Hs. unfold trigger. by rewrite scan_counting, bump_counting.
Qed.

Lemma counter_at_S env n :
  counter_at samples CHN_AMOUNT threshold env (S n)
  = fst (trigger samples threshold (counter_at samples CHN_AMOUNT threshold env n)
           (readings CHN_AMOUNT (env n))).
Proof. done. Qed.

(** No reading reaches the threshold: the counter stays at 0. *)
Lemma counter_quiet env n :
  1 <= sustain samples ->
  (forall k, (k < n)%nat -> crossing threshold (readings CHN_AMOUNT (env k)) = false) ->
  counter_at samples CHN_AMOUNT threshold env n = 0
  /\ forall k, (k < n)%nat -> completes_at samples CHN_AMOUNT threshold env k = false.
Proof.
  intros Hs. induction n as [|n IH]; intros Hq; [split; [done | lia]|].
  destruct IH as [IH0 IHc]; [auto|].
  split.
  - rewrite counter_at_S, IH0, trigger_idle_quiet; auto.
  - intros k Hk. destruct (decide (k = n)) as [->|?]; [|apply IHc; lia].
    unfold completes_at. rewrite IH0, trigger_idle_quiet; auto.
Qed.

(** After a first crossing at tick [t0] the counter is [d + 2] at the end of
    tick [t0 + d], as long as that is below [sustain]. *)
Lemma counter_counting env t0 d :
  counter_at samples CHN_AMOUNT threshold env t0 = 0 ->
  crossing threshold (readings CHN_AMOUNT (env t0)) = true ->
  Z.of_nat d + 2 < sustain samples ->
  counter_at samples CHN_AMOUNT threshold env (S (t0 + d)) = Z.of_nat d + 2
  /\ completes_at samples CHN_AMOUNT threshold env (t0 + d) = false.
Proof.
  intros H0 Hx. induction d as [|d IH]; intros Hd.
  - rewrite Nat.add_0_r. unfold completes_at. rewrite counter_at_S, H0.
    rewrite trigger_idle_crossing by done.
    by destruct (Z.geb_spec 2 (sustain samples)); [lia|].
  - destruct IH as [IH _]; [lia|].
    replace (t0 + S d)%nat with (S (t0 + d)) by lia.
    unfold completes_at. rewrite counter_at_S, IH.
    rewrite trigger_counting by lia.
    destruct (Z.geb_spec (Z.of_nat d + 2 + 1) (sustain samples)); [lia|].
    split; [simpl; lia | done].
Qed.

(** ... and the tick at which it reaches [sustain] completes the window. *)
Lemma counter_completes env t0 :
  2 <= sustain samples ->
  counter_at samples CHN_AMOUNT threshold env t0 = 0 ->
  crossing threshold (readings CHN_AMOUNT (env t0)) = true ->
  completes_at samples CHN_AMOUNT threshold env (t0 + Z.to_nat (sustain samples - 2)) = true
  /\ counter_at samples CHN_AMOUNT threshold env (S (t0 + Z.to_nat (sustain samples - 2))) = 0
  /\ bump (scan threshold
             (counter_at samples CHN_AMOUNT threshold env (t0 + Z.to_nat (sustain samples - 2)))
             (readings CHN_AMOUNT (env (t0 + Z.to_nat (sustain samples - 2))%nat)))
     = sustain samples.
Proof.
  intros Hs H0 Hx. unfold completes_at. rewrite counter_at_S.
  destruct (Z.to_nat (sustain samples - 2)) as [|d] eqn:Hd.
  - rewrite Nat.add_0_r, H0, trigger_idle_crossing by done.
    destruct (Z.geb_spec 2 (sustain samples)); [|lia].
    repeat split. unfold scan, bump. rewrite Hx. simpl. lia.
  - destruct (counter_counting env t0 d H0 Hx) as [Hc _]; [lia|].
    replace (t0 + S d)%nat with (S (t0 + d)) by lia.
    rewrite Hc, trigger_counting by lia.
    destruct (Z.geb_spec (Z.of_nat d + 2 + 1) (sustain samples)); [|lia].
    repeat split. rewrite scan_counting, bump_counting; lia.
Qed.

(** The counter is never ahead of the ticks. *)
Lemma counter_at_bounds env n :
  0 <= counter_at samples CHN_AMOUNT threshold env n <= Z.of_nat n + 1
  /\ (counter_at samples CHN_AMOUNT threshold env n = 0
      \/ counter_at samples CHN_AMOUNT threshold env n < sustain samples).
Proof.
  induction n as [|n [IH1 IH2]]; [simpl; lia|].
  rewrite counter_at_S. unfold trigger, scan, bump.
  set (s := counter_at samples CHN_AMOUNT threshold env n) in *.
  destruct (Z.eqb_spec s 0) as [Hs|Hs].
  - destruct (crossing threshold _); simpl;
      match goal with |- context [?a >=? ?b] => destruct (Z.geb_spec a b) end;
      simpl; lia.
  - destruct (Z.eqb_spec s 0); [done|].
    destruct (Z.geb_spec (s + 1) (sustain samples)); simpl; lia.
Qed.

Lemma completes_at_late env t :
  completes_at samples CHN_AMOUNT threshold env t = true ->
  sustain samples - 2 <= Z.of_nat t.
Proof.
  unfold completes_at, trigger, scan, bump.
  pose proof (counter_at_bounds env t) as [Hb _].
  set (s := counter_at samples CHN_AMOUNT threshold env t) in *.
  destruct (Z.eqb_spec s 0) as [Hs|Hs].
  - destruct (crossing threshold _); simpl;
      match goal with |- context [?a >=? ?b] => destruct (Z.geb_spec a b) end;
      simpl; intros; (done || lia).
  - destruct (Z.eqb_spec s 0); [done|].
    destruct (Z.geb_spec (s + 1) (sustain samples)); simpl; intros; (done || lia).
Qed.

(** ** Contents of the ring *)

Lemma lookup_ring_write_in data i b (j : nat) :
  0 <= i -> (Z.to_nat (i * CHN_AMOUNT) + length b <= length data)%nat ->
  (j < length b)%nat ->
  ring_write CHN_AMOUNT data i b !! (Z.to_nat (i * CHN_AMOUNT) + j)%nat = b !! j.
Proof.
  intros Hi Hfit Hj. unfold ring_write.
  rewrite lookup_app_r by (rewrite length_take; lia).
  rewrite length_take, lookup_app_l by lia. f_equal. lia.
Qed.

Lemma lookup_ring_write_out data i b (p : nat) :
  0 <= i -> (Z.to_nat (i * CHN_AMOUNT) + length b <= length data)%nat ->
  (p < Z.to_nat (i * CHN_AMOUNT) \/ Z.to_nat (i * CHN_AMOUNT) + length b <= p)%nat ->
  ring_write CHN_AMOUNT data i b !! p = data !! p.
Proof.
  intros Hi Hfit [Hp|Hp]; unfold ring_write.
  - rewrite lookup_app_l by (rewrite length_take; lia).
    by rewrite lookup_take_lt.
  - rewrite lookup_app_r by (rewrite length_take; lia).
    rewrite length_take, lookup_app_r by lia.
    rewrite lookup_drop. f_equal. lia.
Qed.

Lemma slot_distinct (m k : nat) :
  (m < k)%nat -> Z.of_nat k < Z.of_nat m + samples ->
  slot samples k <> slot samples m.
Proof.
  unfold slot. intros Hmk Hk Heq.
  pose proof (Z.div_mod (Z.of_nat k) samples ltac:(lia)) as Hdk.
  pose proof (Z.div_mod (Z.of_nat m) samples ltac:(lia)) as Hdm.
  rewrite Heq in Hdk.
  assert (Z.of_nat k - Z.of_nat m
          = samples * (Z.of_nat k / samples - Z.of_nat m / samples)) as Hdiff by lia.
  destruct (Z.le_gt_cases (Z.of_nat k / samples - Z.of_nat m / samples) 0); nia.
Qed.

(** Tick [m] is still in its slot as long as fewer than [samples] ticks
    followed it. *)
Lemma ring_at_lookup env data0 (n m j : nat) :
  length data0 = Z.to_nat N ->
  (forall k, (k < n)%nat -> ioctl (env k) <> None) ->
  (m < n)%nat -> Z.of_nat n <= Z.of_nat m + samples ->
  (j < Z.to_nat CHN_AMOUNT)%nat ->
  ring_at samples CHN_AMOUNT env data0 n !! (Z.to_nat (slot samples m * CHN_AMOUNT) + j)%nat
  = readings CHN_AMOUNT (env m) !! j.
Proof.
  intros H0. induction n as [|n IH]; intros Hok Hm Hn Hj; [lia|].
  assert (forall k, (k < n)%nat -> ioctl (env k) <> None) as Hok' by auto with lia.
  pose proof (slot_range n) as Hsn. pose proof (slot_range m) as Hsm.
  assert (Z.to_nat (slot samples n * CHN_AMOUNT) + length (readings CHN_AMOUNT (env n))
          <= length (ring_at samples CHN_AMOUNT env data0 n))%nat as Hfit.
  { rewrite length_ring_at, length_readings by auto. by apply slot_fits. }
  cbn [ring_at]. destruct (decide (m = n)) as [->|Hne].
  - apply lookup_ring_write_in; [lia | done |].
    rewrite length_readings by auto. done.
  - rewrite lookup_ring_write_out; [apply IH; auto with lia | lia | done |].
    rewrite length_readings by auto.
    assert (slot samples n <> slot samples m) as Hd by (apply slot_distinct; lia).
    destruct (Z.lt_ge_cases (slot samples m) (slot samples n)); [left | right]; nia.
Qed.

(** A slot that no tick has reached yet holds what the buffer held at the
    start. *)
Lemma ring_at_untouched env data0 (n : nat) (p : Z) (j : nat) :
  length data0 = Z.to_nat N ->
  (forall k, (k < n)%nat -> ioctl (env k) <> None) ->
  Z.of_nat n <= p < samples -> (j < Z.to_nat CHN_AMOUNT)%nat ->
  ring_at samples CHN_AMOUNT env data0 n !! (Z.to_nat (p * CHN_AMOUNT) + j)%nat
  = data0 !! (Z.to_nat (p * CHN_AMOUNT) + j)%nat.
Proof.
  intros H0. induction n as [|n IH]; intros Hok Hp Hj; [done|].
  assert (forall k, (k < n)%nat -> ioctl (env k) <> None) as Hok' by auto with lia.
  assert (slot samples n = Z.of_nat n) as Hsn.
  { unfold slot. apply Z.mod_small. lia. }
  cbn [ring_at]. rewrite lookup_ring_write_out; [apply IH; auto with lia | lia | |].
  - rewrite length_ring_at, length_readings by auto.
    rewrite Hsn. apply slot_fits. lia.
  - rewrite length_readings, Hsn by auto. right. nia.
Qed.

Lemma mod_slot_channel (a j : Z) :
  0 <= a -> 0 <= j < CHN_AMOUNT ->
  (a * CHN_AMOUNT + j) mod N = (a mod samples) * CHN_AMOUNT + j.
Proof.
  intros Ha Hj. symmetry.
  pose proof (Z.mod_pos_bound a samples samples_pos).
  pose proof (Z.div_mod a samples ltac:(lia)).
  apply (Zmod_unique _ _ (a / samples)); nia.
Qed.

(** The window of tick [t], read by position [p] and channel [j]. *)
Lemma window_at_lookup env data0 (t p j : nat) :
  length data0 = Z.to_nat N ->
  (forall k, (k <= t)%nat -> ioctl (env k) <> None) ->
  Z.of_nat p < samples -> (j < Z.to_nat CHN_AMOUNT)%nat ->
  window_at samples CHN_AMOUNT env data0 t !! (p * Z.to_nat CHN_AMOUNT + j)%nat
  = ring_at samples CHN_AMOUNT env data0 (S t)
      !! (Z.to_nat (slot samples (t + p) * CHN_AMOUNT) + j)%nat.
Proof.
  intros H0 Hok Hp Hj. unfold window_at.
  pose proof (slot_range t) as Hst.
  assert (length (ring_at samples CHN_AMOUNT env data0 (S t)) = Z.to_nat N) as Hlen.
  { apply length_ring_at; [done|]. intros k Hk. apply Hok. lia. }
  rewrite lookup_rotate_r by (rewrite Hlen; nia).
  unfold rotate_nat_add. rewrite Hlen. f_equal.
  rewrite !Z2Nat.id by nia.
  replace (slot samples t * CHN_AMOUNT + Z.of_nat (p * Z.to_nat CHN_AMOUNT + j))
    with ((slot samples t + Z.of_nat p) * CHN_AMOUNT + Z.of_nat j) by nia.
  rewrite mod_slot_channel by lia.
  unfold slot. rewrite Zplus_mod_idemp_l, Nat2Z.inj_add.
  pose proof (Z.mod_pos_bound (Z.of_nat t + Z.of_nat p) samples samples_pos).
  nia.
Qed.

(** ** Captures of a run *)

(** Whatever a run has logged was logged by a good tick, and is the capture
    described by [capture_at]. *)
Lemma continuous_log_elem env data0 fixed0 n t c :
  length data0 = Z.to_nat N -> length fixed0 = Z.to_nat N ->
  (t, c) ∈ (continuous samples CHN_AMOUNT threshold env data0 fixed0 n).2 ->
  (t < n)%nat
  /\ (forall k, (k <= t)%nat -> tick_ok samples CHN_AMOUNT threshold env k)
  /\ completes_at samples CHN_AMOUNT threshold env t = true
  /\ c = capture_at samples CHN_AMOUNT threshold env data0 t.
Proof.
  intros H0 Hf. induction n as [|n IH]; [by rewrite elem_of_nil|].
  rewrite continuous_S.
  destruct (continuous _ _ _ env data0 fixed0 n) as [[st|st] log] eqn:Hn;
    [|intros Hin; destruct (IH Hin) as (? & ? & ? & ?); auto with lia].
  pose proof (continuous_running _ _ _ _ _ _ H0 Hf Hn) as Hok.
  rewrite (continuous_spec _ _ _ _ H0 Hf Hok) in Hn. injection Hn as <- <-.
  assert (forall k, (k < n)%nat -> ioctl (env k) <> None) as Hio.
  { intros k Hk. by apply Hok. }
  assert ((t, c) ∈ log_at samples CHN_AMOUNT threshold env data0 n ->
          (t < S n)%nat
          /\ (forall k, (k <= t)%nat -> tick_ok samples CHN_AMOUNT threshold env k)
          /\ completes_at samples CHN_AMOUNT threshold env t = true
          /\ c = capture_at samples CHN_AMOUNT threshold env data0 t) as Hold.
  { intros Hin. destruct (IH Hin) as (? & ? & ? & ?). auto with lia. }
  destruct (ioctl (env n)) as [rx|] eqn:Hrx; [|by rewrite loop_body_null].
  rewrite (loop_body_at _ _ _ _ rx) by done.
  destruct (completes_at _ _ _ env n) eqn:Hc; [|done].
  destruct (fopen (env n)) eqn:Hopen; [|done].
  simpl. rewrite elem_of_cons. intros [[= -> ->]|Hin]; [|auto].
  split; [lia|]. split; [|done].
  intros k Hk. destruct (decide (k = n)) as [->|?]; [|apply Hok; lia].
  split; [by rewrite Hrx | done].
Qed.

Lemma log_at_nil env data0 n :
  (forall k, (k < n)%nat -> completes_at samples CHN_AMOUNT threshold env k = false) ->
  log_at samples CHN_AMOUNT threshold env data0 n = [].
Proof.
  induction n as [|n IH]; intros Hq; [done|].
  simpl. rewrite Hq by lia. apply IH. auto with lia.
Qed.

(** [trigger_run] computes the counter and the ticks of the log. *)
Lemma trigger_run_spec env data0 n :
  trigger_run samples CHN_AMOUNT threshold env n
  = (counter_at samples CHN_AMOUNT threshold env n,
     (log_at samples CHN_AMOUNT threshold env data0 n).*1).
Proof.
  induction n as [|n IH]; [done|].
  cbn [trigger_run log_at]. rewrite IH. unfold completes_at. rewrite counter_at_S.
  destruct (trigger samples threshold _ _) as [s' [|]]; done.
Qed.

Lemma log_at_ticks env data0 n :
  log_at samples CHN_AMOUNT threshold env data0 n
  = (fun t => (t, capture_at samples CHN_AMOUNT threshold env data0 t))
      <$> (trigger_run samples CHN_AMOUNT threshold env n).2.
Proof.
  rewrite (trigger_run_spec env data0). cbn [snd].
  induction n as [|n IH]; [done|].
  cbn [log_at]. destruct (completes_at _ _ _ env n); [|done].
  rewrite !fmap_cons. cbn [fst]. by f_equal.
Qed.

(** The values a run keeps in [i] and [s_counter] are bounded by the
    configuration, so the [int] arithmetic of the loop never overflows when
    [samples * CHN_AMOUNT] fits an [int]. *)
Lemma continuous_bounds env data0 fixed0 n st log :
  length data0 = Z.to_nat N -> length fixed0 = Z.to_nat N ->
  continuous samples CHN_AMOUNT threshold env data0 fixed0 n = (Running st, log) ->
  0 <= st_i st <= samples
  /\ 0 <= st_s_counter st <= Z.max 0 (sustain samples - 1)
  /\ length (st_data st) = Z.to_nat N
  /\ length (st_data_fixed st) = Z.to_nat N.
Proof.
  intros H0 Hf Hrun.
  pose proof (continuous_running _ _ _ _ _ _ H0 Hf Hrun) as Hok.
  rewrite (continuous_spec _ _ _ _ H0 Hf Hok) in Hrun. injection Hrun as <- <-.
  assert (forall k, (k < n)%nat -> ioctl (env k) <> None) as Hio.
  { intros k Hk. by apply Hok. }
  pose proof (counter_at_bounds env n) as [? ?].
  simpl. repeat split; try lia.
  - destruct n; [lia|]. pose proof (slot_range n). lia.
  - destruct n; [lia|]. pose proof (slot_range n). lia.
  - by apply length_ring_at.
  - by apply length_fixed_at.
Qed.

(** Every reading decoded from bytes is a 10-bit value. *)
Lemma rx_reading_range rx j :
  Forall (fun byte => 0 <= byte < 256) rx ->
  0 <= rx_reading rx j <= 1023.
Proof.
  intros Hrx. unfold rx_reading.
  assert (forall k, 0 <= rx !!! k < 256) as Hb.
  { intros k. destruct (rx !! k) as [v|] eqn:Hk.
    - rewrite (list_lookup_total_correct _ _ _ Hk).
      by apply (proj1 (Forall_lookup _ _) Hrx k).
    - rewrite list_lookup_total_alt, Hk. simpl. lia. }
  rewrite Z.shiftl_mul_pow2 by lia.
  change 3 with (Z.ones 2). rewrite Z.land_ones by lia.
  pose proof (Z.mod_pos_bound (rx !!! Z.to_nat (j + 1)) (2 ^ 2) ltac:(lia)).
  pose proof (Hb (Z.to_nat (j + 2))). lia.
Qed.

(** ** The window extractor *)

(** C7.  For every ring buffer of [samples * CHN_AMOUNT] readings and every
    offset in [[0, samples)], [fix_buffer] returns exactly
    [samples * CHN_AMOUNT] values, never fewer, and each of them is a reading
    taken from the ring. *)
Theorem fix_buffer_returns_full_window (buf buf_r : list Z) (offset : Z) :
  length buf = Z.to_nat N -> length buf_r = Z.to_nat N ->
  0 <= offset < samples ->
  length (fix_buffer samples CHN_AMOUNT buf buf_r offset) = Z.to_nat N
  /\ forall c, (c < Z.to_nat N)%nat ->
       exists v, fix_buffer samples CHN_AMOUNT buf buf_r offset !! c = Some v
                 /\ v ∈ buf.
Proof.
  intros Hb Hr Ho. split; [by rewrite fix_buffer_length|].
  intros c Hc. rewrite fix_buffer_lookup by (done || lia).
  assert (0 < N) as HN by lia.
  pose proof (Z.mod_pos_bound (offset * CHN_AMOUNT + Z.of_nat c) N HN).
  destruct (lookup_lt_is_Some_2 buf
              (Z.to_nat ((offset * CHN_AMOUNT + Z.of_nat c) mod N))) as [v Hv]; [lia|].
  exists v. split; [done|]. by eapply list_elem_of_lookup_2.
Qed.

(** C10.  For every [buf] of length [samples * CHN_AMOUNT] and every offset
    with [0 <= offset < samples], [fix_buffer] produces the left rotation of
    [buf] by [offset * CHN_AMOUNT] positions: the output at index [c] is
    [buf[(offset * CHN_AMOUNT + c) mod (samples * CHN_AMOUNT)]]; the output
    is a permutation of the input, and the loop leaves [buf] as it was. *)
Theorem fix_buffer_is_left_rotation (buf buf_r : list Z) (offset : Z) :
  length buf = Z.to_nat N -> length buf_r = Z.to_nat N ->
  0 <= offset < samples ->
  (forall c, 0 <= c < N ->
     fix_buffer samples CHN_AMOUNT buf buf_r offset !!! Z.to_nat c
     = buf !!! Z.to_nat ((offset * CHN_AMOUNT + c) mod N))
  /\ fix_buffer samples CHN_AMOUNT buf buf_r offset
     = rotate (Z.to_nat (offset * CHN_AMOUNT)) buf
  /\ fix_buffer samples CHN_AMOUNT buf buf_r offset ≡ₚ buf
  /\ fx_buf (fix_loop samples CHN_AMOUNT buf buf_r offset) = buf.
Proof.
  intros Hb Hr Ho. assert (0 < N) as HN by lia.
  split; [|split; [|split]].
  - intros c Hc. rewrite !list_lookup_total_alt.
    rewrite fix_buffer_lookup by (done || lia).
    by rewrite Z2Nat.id by lia.
  - apply fix_buffer_rotate; (done || lia).
  - rewrite fix_buffer_rotate by (done || lia). unfold rotate.
    rewrite Permutation_app_comm. by rewrite take_drop.
  - unfold fix_loop. replace N with (Z.of_nat (Z.to_nat N)) by lia.
    by destruct (fix_loop_prefix buf buf_r (offset * CHN_AMOUNT) (Z.to_nat N))
      as [? _ _ _ _ _]; try done; nia.
Qed.

(** ** The ring and the extracted window *)

(** The window of a tick that at least [samples - 1] ticks precede: the
    tick itself first, then the [samples - 1] ticks before it, oldest
    first. *)
Lemma window_at_order env data0 (t : nat) :
  length data0 = Z.to_nat N ->
  (forall k, (k <= t)%nat -> ioctl (env k) <> None) ->
  samples <= Z.of_nat t + 1 ->
  (forall j, (j < Z.to_nat CHN_AMOUNT)%nat ->
     window_at samples CHN_AMOUNT env data0 t !! j
     = readings CHN_AMOUNT (env t) !! j)
  /\ (forall p j, (1 <= p)%nat -> Z.of_nat p < samples ->
        (j < Z.to_nat CHN_AMOUNT)%nat ->
        window_at samples CHN_AMOUNT env data0 t !! (p * Z.to_nat CHN_AMOUNT + j)%nat
        = readings CHN_AMOUNT (env (t + p - Z.to_nat samples)%nat) !! j).
Proof.
  intros H0 Hio Hfull.
  assert (forall k, (k < S t)%nat -> ioctl (env k) <> None) as Hio'.
  { intros k Hk. apply Hio. lia. }
  split.
  - intros j Hj.
    rewrite <- (Nat.add_0_l j) at 1.
    change 0%nat with (0 * Z.to_nat CHN_AMOUNT)%nat.
    rewrite window_at_lookup by (done || lia).
    rewrite Nat.add_0_r. apply ring_at_lookup; (done || lia).
  - intros p j Hp1 Hp Hj.
    rewrite window_at_lookup by (done || lia).
    replace (slot samples (t + p))
      with (slot samples (t + p - Z.to_nat samples)%nat).
    + apply ring_at_lookup; (done || lia).
    + unfold slot.
      replace (Z.of_nat (t + p)) with
        (Z.of_nat (t + p - Z.to_nat samples) + 1 * samples) by lia.
      by rewrite Z_mod_plus_full.
Qed.

(** The window of a tick that fewer than [samples - 1] ticks precede: the
    positions after the tick are slots that were never written. *)
Lemma window_at_unwritten env data0 (t p j : nat) :
  length data0 = Z.to_nat N ->
  (forall k, (k <= t)%nat -> ioctl (env k) <> None) ->
  (1 <= p)%nat -> Z.of_nat t + Z.of_nat p < samples ->
  (j < Z.to_nat CHN_AMOUNT)%nat ->
  window_at samples CHN_AMOUNT env data0 t !! (p * Z.to_nat CHN_AMOUNT + j)%nat
  = data0 !! ((t + p) * Z.to_nat CHN_AMOUNT + j)%nat.
Proof.
  intros H0 Hio Hp1 Hp Hj.
  rewrite window_at_lookup by (done || lia).
  assert (slot samples (t + p) = Z.of_nat (t + p)) as ->.
  { unfold slot. apply Z.mod_small. lia. }
  rewrite ring_at_untouched; [| done | | lia | done].
  - f_equal. nia.
  - intros k Hk. apply Hio. lia.
Qed.

(** C1 (as the code has it).  When a capture completes at tick [t] after at
    least [samples] ticks were written, [fix_buffer] is called with offset
    [t mod samples] and walks the ring from that very slot: the first
    [CHN_AMOUNT] values of the window are the readings of tick [t], the most
    recent one, and positions [1 .. samples - 1] hold the ticks
    [t - samples + 1 .. t - 1] in chronological order, however many times
    the ring has wrapped. *)
Theorem extraction_starts_at_trigger_tick env data0 fixed0 (n t : nat) c :
  length data0 = Z.to_nat N -> length fixed0 = Z.to_nat N ->
  (t, c) ∈ (continuous samples CHN_AMOUNT threshold env data0 fixed0 n).2 ->
  samples <= Z.of_nat t + 1 ->
  cap_offset c = Z.of_nat t mod samples
  /\ length (cap_window c) = Z.to_nat N
  /\ (forall j, (j < Z.to_nat CHN_AMOUNT)%nat ->
        cap_window c !! j = readings CHN_AMOUNT (env t) !! j)
  /\ (forall p j, (1 <= p)%nat -> Z.of_nat p < samples ->
        (j < Z.to_nat CHN_AMOUNT)%nat ->
        cap_window c !! (p * Z.to_nat CHN_AMOUNT + j)%nat
        = readings CHN_AMOUNT (env (t + p - Z.to_nat samples)%nat) !! j).
Proof.
  intros H0 Hf Hin Hfull.
  destruct (continuous_log_elem _ _ _ _ _ _ H0 Hf Hin) as (Ht & Hok & Hc & ->).
  assert (forall k, (k <= t)%nat -> ioctl (env k) <> None) as Hio.
  { intros k Hk. by apply Hok. }
  cbn [capture_at cap_offset cap_window].
  split; [done|]. split; [by apply length_window_at|].
  by apply window_at_order.
Qed.

(** C3 (as the code has it).  A capture is never completed before tick
    [(samples*2)/3 - 2], that is before [(samples*2)/3 - 1] ticks were
    written.  This can be fewer than [samples]: the slots that no tick has
    reached yet are then copied into the window with whatever the buffer
    held at the start. *)
Theorem capture_not_before_sustain env data0 fixed0 (n t : nat) c :
  length data0 = Z.to_nat N -> length fixed0 = Z.to_nat N ->
  (t, c) ∈ (continuous samples CHN_AMOUNT threshold env data0 fixed0 n).2 ->
  sustain samples - 2 <= Z.of_nat t
  /\ (forall p j, (1 <= p)%nat -> Z.of_nat t + Z.of_nat p < samples ->
        (j < Z.to_nat CHN_AMOUNT)%nat ->
        cap_window c !! (p * Z.to_nat CHN_AMOUNT + j)%nat
        = data0 !! ((t + p) * Z.to_nat CHN_AMOUNT + j)%nat).
Proof.
  intros H0 Hf Hin.
  destruct (continuous_log_elem _ _ _ _ _ _ H0 Hf Hin) as (Ht & Hok & Hc & ->).
  split; [by apply (completes_at_late env)|].
  intros p j Hp1 Hp Hj. cbn [capture_at cap_window].
  apply window_at_unwritten; try done.
  intros k Hk. by apply Hok.
Qed.

(** ** The trigger *)

Lemma first_capture env (t0 : nat) :
  2 <= sustain samples ->
  (forall k, (k < t0)%nat -> crossing threshold (readings CHN_AMOUNT (env k)) = false) ->
  crossing threshold (readings CHN_AMOUNT (env t0)) = true ->
  (forall k, (k < completion_tick samples t0)%nat ->
     completes_at samples CHN_AMOUNT threshold env k = false)
  /\ completes_at samples CHN_AMOUNT threshold env (completion_tick samples t0) = true.
Proof.
  intros Hs Hq Hx.
  destruct (counter_quiet env t0) as [H0 Hbefore]; [lia | done |].
  split; [|by apply counter_completes].
  intros k Hk. unfold completion_tick in Hk.
  destruct (decide (k < t0)%nat) as [?|Hge]; [by apply Hbefore|].
  replace k with (t0 + (k - t0))%nat by lia.
  apply counter_counting; [done | done | lia].
Qed.

(** The run up to and including its first capture. *)
Lemma continuous_first_capture env data0 fixed0 (t0 : nat) :
  length data0 = Z.to_nat N -> length fixed0 = Z.to_nat N ->
  2 <= sustain samples ->
  (forall k, (k <= completion_tick samples t0)%nat -> ioctl (env k) <> None) ->
  fopen (env (completion_tick samples t0)) = true ->
  (forall k, (k < t0)%nat -> crossing threshold (readings CHN_AMOUNT (env k)) = false) ->
  crossing threshold (readings CHN_AMOUNT (env t0)) = true ->
  (forall n, (n <= completion_tick samples t0)%nat ->
     continuous samples CHN_AMOUNT threshold env data0 fixed0 n
     = (Running (state_at samples CHN_AMOUNT threshold env data0 fixed0 n), []))
  /\ continuous samples CHN_AMOUNT threshold env data0 fixed0
       (S (completion_tick samples t0))
     = (Running (state_at samples CHN_AMOUNT threshold env data0 fixed0
                   (S (completion_tick samples t0))),
        [(completion_tick samples t0,
          capture_at samples CHN_AMOUNT threshold env data0
            (completion_tick samples t0))]).
Proof.
  intros H0 Hf Hs Hio Hopen Hq Hx.
  destruct (first_capture env t0 Hs Hq Hx) as [Hnone Hdone].
  assert (forall k, (k <= completion_tick samples t0)%nat ->
            tick_ok samples CHN_AMOUNT threshold env k) as Hok.
  { intros k Hk. split; [by apply Hio|]. intros Hc.
    destruct (decide (k = completion_tick samples t0)) as [->|?]; [done|].
    rewrite Hnone in Hc by lia. done. }
  split.
  - intros n Hn. rewrite continuous_spec; [| done | done |].
    2:{ intros j Hj. apply Hok. lia. }
    rewrite log_at_nil; [done|]. intros j Hj. apply Hnone. lia.
  - rewrite continuous_spec; [| done | done |].
    2:{ intros j Hj. apply Hok. lia. }
    cbn [log_at]. by rewrite Hdone, log_at_nil.
Qed.

(** C2 (as the code has it).  When the first reading at or above the
    threshold arrives at tick [t0], the counter is 0 up to that tick, is set
    to 1 while the channels of tick [t0] are scanned and is incremented in
    the same iteration, so that it is [d + 2] at the end of tick [t0 + d];
    the window is complete when it reaches [(samples*2)/3], at tick
    [t0 + (samples*2)/3 - 2], which is the first capture of the run, and the
    counter is 0 again afterwards. *)
Theorem capture_completes_after_sustain env data0 fixed0 (t0 : nat) :
  length data0 = Z.to_nat N -> length fixed0 = Z.to_nat N ->
  2 <= sustain samples ->
  (forall k, (k <= completion_tick samples t0)%nat -> ioctl (env k) <> None) ->
  fopen (env (completion_tick samples t0)) = true ->
  (forall k, (k < t0)%nat -> crossing threshold (readings CHN_AMOUNT (env k)) = false) ->
  crossing threshold (readings CHN_AMOUNT (env t0)) = true ->
  (forall k, (k <= t0)%nat ->
     exists st, continuous samples CHN_AMOUNT threshold env data0 fixed0 k
                = (Running st, [])
                /\ st_s_counter st = 0)
  /\ (forall d, Z.of_nat d + 2 < sustain samples ->
     exists st, continuous samples CHN_AMOUNT threshold env data0 fixed0 (S (t0 + d))
                = (Running st, [])
                /\ st_s_counter st = Z.of_nat d + 2)
  /\ exists st c,
       continuous samples CHN_AMOUNT threshold env data0 fixed0
         (S (completion_tick samples t0))
       = (Running st, [(completion_tick samples t0, c)])
       /\ cap_s_counter c = sustain samples
       /\ st_s_counter st = 0.
Proof.
  intros H0 Hf Hs Hio Hopen Hq Hx.
  destruct (continuous_first_capture env data0 fixed0 t0) as [Hbefore Hat]; try done.
  destruct (counter_quiet env t0) as [Hc0 _]; [lia | done |].
  split; [|split].
  - intros k Hk. eexists. rewrite Hbefore by (unfold completion_tick; lia).
    split; [done|]. simpl.
    apply counter_quiet; [lia|]. intros j Hj. apply Hq. lia.
  - intros d Hd. eexists. rewrite Hbefore by (unfold completion_tick; lia).
    split; [done|]. cbn [state_at st_s_counter].
    by apply counter_counting.
  - do 2 eexists. rewrite Hat.
    split; [done|]. cbn [capture_at cap_s_counter state_at st_s_counter].
    destruct (counter_completes env t0 Hs Hc0 Hx) as (_ & Hz & Hb).
    done.
Qed.

Lemma crossing_elem b :
  crossing threshold b = true <-> exists v, v ∈ b /\ threshold <= v.
Proof.
  unfold crossing. rewrite existsb_exists. split.
  - intros (v & Hin & Hv). exists v. rewrite list_elem_of_In. split; [done|lia].
  - intros (v & Hin & Hv). exists v. rewrite <- list_elem_of_In. split; [done|lia].
Qed.

Lemma crossing_readings e rx :
  ioctl e = Some rx ->
  crossing threshold (readings CHN_AMOUNT e) = true
  <-> exists j, 0 <= j < CHN_AMOUNT /\ threshold <= rx_reading rx (4 * j).
Proof.
  intros Hrx. rewrite crossing_elem. unfold readings, spi_transfer, blocks.
  rewrite Hrx. simpl. rewrite Z.mul_1_r. split.
  - intros (v & Hin & Hv). apply list_elem_of_fmap in Hin as (j & -> & Hj).
    apply elem_of_seqZ in Hj. exists j. split; [lia | done].
  - intros (j & Hj & Hv). exists (rx_reading rx (4 * j)). split; [|done].
    apply (list_elem_of_fmap_2 (fun i => rx_reading rx (4 * i))), elem_of_seqZ. lia.
Qed.

(** Between the end of one capture and the completion of the next the
    counter has to climb from 0 to [sustain] again. *)
Lemma counter_after_idle env (t d : nat) :
  counter_at samples CHN_AMOUNT threshold env t = 0 ->
  counter_at samples CHN_AMOUNT threshold env (t + d) <= Z.of_nat d + 1.
Proof.
  intros H0. induction d as [|d IH]; [rewrite Nat.add_0_r; lia|].
  replace (t + S d)%nat with (S (t + d)) by lia.
  rewrite counter_at_S. unfold trigger, scan, bump.
  pose proof (counter_at_bounds env (t + d)) as [Hb _].
  set (s := counter_at samples CHN_AMOUNT threshold env (t + d)) in *.
  destruct (Z.eqb_spec s 0) as [Hs|Hs].
  - destruct (crossing threshold _); simpl;
      match goal with |- context [?a >=? ?b] => destruct (Z.geb_spec a b) end;
      simpl; lia.
  - destruct (Z.eqb_spec s 0); [done|].
    destruct (Z.geb_spec (s + 1) (sustain samples)); simpl; lia.
Qed.

Lemma captures_spaced env (t1 t2 : nat) :
  (t1 < t2)%nat ->
  completes_at samples CHN_AMOUNT threshold env t1 = true ->
  completes_at samples CHN_AMOUNT threshold env t2 = true ->
  sustain samples - 1 <= Z.of_nat t2 - Z.of_nat t1.
Proof.
  intros Hlt H1 H2.
  assert (counter_at samples CHN_AMOUNT threshold env (S t1) = 0) as H0.
  { rewrite counter_at_S. unfold completes_at in H1. revert H1.
    unfold trigger. by destruct (_ >=? sustain samples). }
  pose proof (counter_after_idle env (S t1) (t2 - S t1) H0) as Hle.
  replace (S t1 + (t2 - S t1))%nat with t2 in Hle by lia.
  revert H2. unfold completes_at, trigger, scan, bump.
  set (s := counter_at samples CHN_AMOUNT threshold env t2) in *.
  destruct (Z.eqb_spec s 0) as [Hs|Hs].
  - destruct (crossing threshold _); simpl;
      match goal with |- context [?a >=? ?b] => destruct (Z.geb_spec a b) end;
      simpl; intros; (done || lia).
  - destruct (Z.eqb_spec s 0); [done|].
    destruct (Z.geb_spec (s + 1) (sustain samples)); simpl; intros; (done || lia).
Qed.

(** C8.  In IDLE ([s_counter = 0]) a tick starts the count if and only if
    at least one of its readings is greater than or equal to [threshold]:
    a reading equal to [threshold] triggers, readings of [threshold - 1] do
    not.  (With [(samples*2)/3 >= 3] the tick that triggers does not also
    complete the window, so the count is seen in the next state.) *)
Theorem idle_triggers_iff_reading_reaches_threshold e st rx :
  ioctl e = Some rx -> 0 <= st_i st <= samples ->
  length (st_data st) = Z.to_nat N ->
  st_s_counter st = 0 -> 3 <= sustain samples ->
  exists st',
    loop_body samples CHN_AMOUNT threshold e st = Next st' None
    /\ (0 < st_s_counter st'
        <-> exists j, 0 <= j < CHN_AMOUNT /\ rx_reading rx (4 * j) >= threshold)
    /\ ((exists j, 0 <= j < CHN_AMOUNT /\ rx_reading rx (4 * j) = threshold)
        -> st_s_counter st' = 2)
    /\ ((forall j, 0 <= j < CHN_AMOUNT -> rx_reading rx (4 * j) = threshold - 1)
        -> st_s_counter st' = 0).
Proof.
  intros Hrx Hi Hlen Hs Hsus.
  rewrite (loop_body_transfer _ _ rx) by done. cbv zeta. rewrite Hs.
  pose proof (crossing_readings e rx Hrx) as Hcross.
  assert (bump (scan threshold 0 (readings CHN_AMOUNT e))
          = if crossing threshold (readings CHN_AMOUNT e) then 2 else 0) as ->.
  { unfold scan, bump. simpl. by destruct (crossing _ _). }
  destruct (crossing threshold (readings CHN_AMOUNT e)) eqn:Hc.
  - destruct (Z.geb_spec 2 (sustain samples)); [lia|].
    eexists. split; [done|]. simpl. split; [|split].
    + split; [|lia]. intros _. destruct (proj1 Hcross eq_refl) as (j & ? & ?).
      exists j. split; [done | lia].
    + done.
    + intros Hall. destruct (proj1 Hcross eq_refl) as (j & Hj & Hv).
      rewrite Hall in Hv by done. lia.
  - destruct (Z.geb_spec 0 (sustain samples)); [lia|].
    eexists. split; [done|]. simpl. split; [|split].
    + split; [lia|]. intros (j & Hj & Hv).
      assert (false = true) by (apply Hcross; exists j; split; [done|lia]).
      done.
    + intros (j & Hj & Hv).
      assert (false = true) by (apply Hcross; exists j; split; [done|lia]).
      done.
    + done.
Qed.

(** C6.  The channel scan compares a reading with the threshold only while
    [s_counter] is 0: it leaves a non-zero counter as it is, and sets a zero
    counter to 1 however many channels reach the threshold.  A tick
    processed while counting therefore adds exactly 1 to the counter (or
    completes the window) whatever its readings are, and two captures of a
    run are at least [(samples*2)/3 - 1] ticks apart. *)
Theorem counting_ignores_threshold e st rx :
  ioctl e = Some rx -> fopen e = true -> 0 <= st_i st <= samples ->
  length (st_data st) = Z.to_nat N ->
  channel_loop CHN_AMOUNT threshold (spi_transfer CHN_AMOUNT (ioctl e))
      (wrap samples (st_i st)) (st_data st) (st_s_counter st)
    = Some (ring_write CHN_AMOUNT (st_data st) (wrap samples (st_i st))
              (readings CHN_AMOUNT e),
            if st_s_counter st =? 0
            then (if crossing threshold (readings CHN_AMOUNT e) then 1 else 0)
            else st_s_counter st)
  /\ (st_s_counter st <> 0 ->
      exists st' ev,
        loop_body samples CHN_AMOUNT threshold e st = Next st' ev
        /\ st_s_counter st'
           = (if st_s_counter st + 1 >=? sustain samples then 0
              else st_s_counter st + 1)
        /\ (is_Some ev <-> sustain samples <= st_s_counter st + 1))
  /\ (forall env data0 fixed0 n t1 c1 t2 c2,
      length data0 = Z.to_nat N -> length fixed0 = Z.to_nat N ->
      (t1, c1) ∈ (continuous samples CHN_AMOUNT threshold env data0 fixed0 n).2 ->
      (t2, c2) ∈ (continuous samples CHN_AMOUNT threshold env data0 fixed0 n).2 ->
      (t1 < t2)%nat ->
      sustain samples - 1 <= Z.of_nat t2 - Z.of_nat t1).
Proof.
  intros Hrx Hopen Hi Hlen. split; [|split].
  - assert (ioctl e <> None) as Hne by congruence.
    assert (0 <= wrap samples (st_i st) < samples) as Hw.
    { unfold wrap. destruct (Z.geb_spec (st_i st) samples); lia. }
    assert (spi_transfer CHN_AMOUNT (ioctl e) = Some (readings CHN_AMOUNT e)) as ->.
    { unfold readings. by rewrite Hrx. }
    rewrite channel_loop_spec; [done | done | lia | by apply length_readings |].
    rewrite length_readings, Hlen by done. by apply slot_fits.
  - intros Hs. rewrite (loop_body_transfer _ _ rx) by done. cbv zeta.
    rewrite scan_counting, bump_counting, Hopen by done.
    destruct (Z.geb_spec (st_s_counter st + 1) (sustain samples)).
    + do 2 eexists. split; [done|]. split; [done|]. split; [lia | by eexists].
    + do 2 eexists. split; [done|]. split; [done|].
      split; [by intros [? [=]] | lia].
  - intros env data0 fixed0 n t1 c1 t2 c2 H0 Hf Hin1 Hin2 Hlt.
    destruct (continuous_log_elem _ _ _ _ _ _ H0 Hf Hin1) as (_ & _ & Hc1 & _).
    destruct (continuous_log_elem _ _ _ _ _ _ H0 Hf Hin2) as (_ & _ & Hc2 & _).
    by apply (captures_spaced env).
Qed.

(** ** Failures of the environment *)

(** C4.  On a tick whose transfer fails ([ioctl] returns a negative value,
    [spi_transfer] returns [NULL]) the run ends there, at the first read
    through the null [data_buf]: the ring buffer, the counter and the log of
    captures are what they were before the tick, [i] is the slot of the
    failed tick and is not incremented, and no later tick is processed. *)
Theorem transfer_failure_ends_run env data0 fixed0 (n : nat) st log :
  continuous samples CHN_AMOUNT threshold env data0 fixed0 n = (Running st, log) ->
  ioctl (env n) = None ->
  forall m, (n < m)%nat ->
  continuous samples CHN_AMOUNT threshold env data0 fixed0 m
  = (Crashed {| st_i := wrap samples (st_i st);
                st_data := st_data st;
                st_data_fixed := st_data_fixed st;
                st_s_counter := st_s_counter st |},
     log).
Proof.
  intros Hrun Hio m Hm.
  apply (continuous_halted _ _ _ (S n)); [|lia].
  by rewrite continuous_S, Hrun, loop_body_null.
Qed.

(** ** The single measurement *)

Lemma burst_loop_prefix env data0 (n : nat) :
  length data0 = Z.to_nat N ->
  (forall k, (k < n)%nat -> ioctl (env k) <> None) ->
  Z.of_nat n <= samples ->
  fold_left (burst_step CHN_AMOUNT env) (seqZ 0 (Z.of_nat n)) (Some data0)
  = Some (ring_at samples CHN_AMOUNT env data0 n).
Proof.
  intros H0. induction n as [|n IH]; intros Hok Hn; [done|].
  rewrite seqZ_S, fold_left_app, IH by (auto with lia || lia).
  simpl. unfold burst_step. rewrite Z.add_0_l, Nat2Z.id.
  assert (ioctl (env n) <> None) as Hio by (apply Hok; lia).
  assert (spi_transfer CHN_AMOUNT (ioctl (env n)) = Some (readings CHN_AMOUNT (env n)))
    as ->.
  { unfold readings. by destruct (ioctl (env n)). }
  assert (slot samples n = Z.of_nat n) as Hs.
  { unfold slot. apply Z.mod_small. lia. }
  rewrite burst_write_spec, Hs; [done | done | lia | by apply length_readings |].
  rewrite length_ring_at, length_readings by auto with lia.
  apply slot_fits. lia.
Qed.

Lemma csv_row_spec (data b : list Z) (r : Z) :
  0 <= r -> length b = Z.to_nat CHN_AMOUNT ->
  (forall j, (j < Z.to_nat CHN_AMOUNT)%nat ->
     data !! (Z.to_nat (r * CHN_AMOUNT) + j)%nat = b !! j) ->
  csv_row CHN_AMOUNT data (r * CHN_AMOUNT) = b.
Proof.
  intros Hr Hb Hdata. unfold csv_row.
  rewrite Z.max_r by lia.
  change [data !!! Z.to_nat (r * CHN_AMOUNT + (CHN_AMOUNT - 1))]
    with ((fun j => data !!! Z.to_nat (r * CHN_AMOUNT + j)) <$> [CHN_AMOUNT - 1]).
  rewrite <- fmap_app.
  replace [CHN_AMOUNT - 1] with (seqZ (0 + (CHN_AMOUNT - 1)) 1) by done.
  rewrite <- seqZ_app by lia.
  apply list_eq. intros j. rewrite list_lookup_fmap.
  destruct (decide (j < Z.to_nat CHN_AMOUNT)%nat) as [Hj|Hj].
  - rewrite lookup_seqZ_lt by lia. simpl.
    rewrite <- Hdata by done. rewrite list_lookup_total_alt.
    replace (Z.to_nat (r * CHN_AMOUNT + (0 + Z.of_nat j)))
      with (Z.to_nat (r * CHN_AMOUNT) + j)%nat by nia.
    destruct (data !! _) eqn:Hd; [done|].
    rewrite Hdata in Hd by done.
    apply lookup_ge_None in Hd. lia.
  - rewrite lookup_seqZ_ge by lia. simpl. symmetry.
    apply lookup_ge_None. lia.
Qed.

(** C9.  With [MODE = 0], [main] acquires exactly [samples] ticks into the
    linear buffer [data] (tick [k] at positions [k * CHN_AMOUNT] and up) and
    calls [write_file] once on it, whatever the readings are: [s_counter]
    stays 0 and [data_fixed] is never written, and the file has the
    [samples] ticks as its rows, in order. *)
Theorem single_measurement_stores_samples_once env data0 fixed0 :
  length data0 = Z.to_nat N -> length fixed0 = Z.to_nat N ->
  (forall k, (k < Z.to_nat samples)%nat -> ioctl (env k) <> None) ->
  fopen (env (Z.to_nat samples)) = true ->
  fprintf (env (Z.to_nat samples)) = true ->
  exists data,
    main samples CHN_AMOUNT threshold 0 env data0 fixed0
    = Returns (Some {| fin_state := {| st_i := samples; st_data := data;
                                       st_data_fixed := fixed0;
                                       st_s_counter := 0 |};
                       fin_file := Some ((fun k => readings CHN_AMOUNT (env k))
                                           <$> seq 0 (Z.to_nat samples)) |})
    /\ length data = Z.to_nat N
    /\ forall k j, (k < Z.to_nat samples)%nat -> (j < Z.to_nat CHN_AMOUNT)%nat ->
         data !! (k * Z.to_nat CHN_AMOUNT + j)%nat
         = readings CHN_AMOUNT (env k) !! j.
Proof.
  intros H0 Hf Hio Hopen Hprint.
  exists (ring_at samples CHN_AMOUNT env data0 (Z.to_nat samples)).
  assert (forall k j, (k < Z.to_nat samples)%nat -> (j < Z.to_nat CHN_AMOUNT)%nat ->
            ring_at samples CHN_AMOUNT env data0 (Z.to_nat samples)
              !! (Z.to_nat (Z.of_nat k * CHN_AMOUNT) + j)%nat
            = readings CHN_AMOUNT (env k) !! j) as Hring.
  { intros k j Hk Hj.
    replace (Z.of_nat k) with (slot samples k) at 1
      by (unfold slot; apply Z.mod_small; lia).
    apply ring_at_lookup; (done || lia). }
  split; [|split].
  - unfold main. change (0 =? 0) with true. cbv iota.
    unfold main_single, burst_loop.
    replace (seqZ 0 samples) with (seqZ 0 (Z.of_nat (Z.to_nat samples)))
      by (f_equal; lia).
    rewrite burst_loop_prefix by (done || lia).
    unfold write_file. rewrite Hopen, Hprint, Z.max_r by lia.
    do 4 f_equal. unfold csv_rows, seqZ.
    rewrite <- list_fmap_compose. apply list_fmap_ext.
    intros i k Hk. simpl. apply lookup_seq in Hk as [-> Hk].
    rewrite Z.add_0_r. apply csv_row_spec; [lia | by apply length_readings; auto |].
    intros j Hj. by apply Hring.
  - by apply length_ring_at.
  - intros k j Hk Hj. rewrite <- Hring by done. f_equal. nia.
Qed.

End Properties.

(** * Worked runs *)

Lemma length_fresh len : length (fresh len) = Z.to_nat len.
Proof. unfold fresh. apply length_replicate. Qed.

Lemma good_tick_ok samples CHN_AMOUNT threshold env (k : nat) :
  (exists vs, env k = good_tick vs) ->
  tick_ok samples CHN_AMOUNT threshold env k.
Proof. intros [vs Hk]. unfold tick_ok. rewrite Hk. by split. Qed.

(** C2, the example of the specification run on the code: with
    [samples = 9000] and a threshold of 450, channel 0 first reads 500 at
    tick 1000.  At the end of that tick the counter is 2, not 1, and the
    window is complete at tick 6998: the 7000 ticks numbered 0 to 6999 log
    exactly one capture, that of tick 6998, so none is declared at tick
    6999. *)
Lemma latency_example_completes_at_6998 :
  exists st1 st c,
    continuous 9000 4 450 env_latency (fresh 36000) (fresh 36000) (Z.to_nat 1001)
    = (Running st1, [])
    /\ st_s_counter st1 = 2
    /\ continuous 9000 4 450 env_latency (fresh 36000) (fresh 36000) (Z.to_nat 7000)
       = (Running st, [(Z.to_nat 6998, c)])
    /\ cap_s_counter c = 6000
    /\ st_s_counter st = 0.
Proof.
  assert (forall n k, (k < n)%nat -> tick_ok 9000 4 450 env_latency k) as Hok
    by (intros; apply good_tick_ok; by eexists).
  do 3 eexists.
  rewrite !continuous_spec by first [lia | apply length_fresh | apply Hok].
  rewrite !log_at_ticks by lia.
  assert ((trigger_run 9000 4 450 env_latency (Z.to_nat 1001)).2 = []) as ->
    by compute_done.
  assert ((trigger_run 9000 4 450 env_latency (Z.to_nat 7000)).2 = [Z.to_nat 6998]) as ->
    by compute_done.
  split; [reflexivity|]. cbn [state_at st_s_counter].
  split; [vm_compute; reflexivity|].
  split; [reflexivity|]. cbn [state_at capture_at st_s_counter cap_s_counter].
  split; vm_compute; reflexivity.
Qed.


Lemma readings_env_numbered (k : nat) :
  Z.of_nat k < 400 * 1024 ->
  readings 4 (env_numbered k)
  = [if (k =? Z.to_nat 10000)%nat then 500 else 0;
     Z.of_nat k / 400; Z.of_nat k mod 400; 0].
Proof.
  intros Hk. apply readings_good_tick; [done|].
  pose proof (Z.mod_pos_bound (Z.of_nat k) 400 ltac:(lia)).
  assert (0 <= Z.of_nat k / 400 < 1024).
  { split; [apply Z.div_pos; lia | apply Z.div_lt_upper_bound; lia]. }
  repeat apply Forall_cons_2; try apply Forall_nil_2; try lia.
  by destruct (k =? Z.to_nat 10000)%nat.
Qed.

Lemma env_numbered_quiet (k : nat) :
  (k < Z.to_nat 10000)%nat ->
  crossing 450 (readings 4 (env_numbered k)) = false.
Proof.
  intros Hk. rewrite readings_env_numbered by lia.
  destruct (Nat.eqb_spec k (Z.to_nat 10000)) as [?|_]; [lia|].
  pose proof (Z.mod_pos_bound (Z.of_nat k) 400 ltac:(lia)).
  assert (Z.of_nat k / 400 < 450) by (apply Z.div_lt_upper_bound; lia).
  unfold crossing. simpl. rewrite !orb_false_r.
  repeat (apply orb_false_intro); lia.
Qed.

(** C1 on the shipped configuration: channel 0 reads 500 at tick 10000, so
    the capture completes at tick 23331, when the ring has wrapped once.
    The window starts with the readings of tick 23331 itself (channel 2
    reads 131), not with those of the oldest tick 3332 (132), and ends with
    those of tick 23330 (130). *)
Lemma numbered_window_starts_with_latest_tick :
  exists st c,
    continuous Shipped.samples Shipped.CHN_AMOUNT Shipped.threshold env_numbered
      (fresh 80000) (fresh 80000) (S (Z.to_nat 23331))
    = (Running st, [(Z.to_nat 23331, c)])
    /\ cap_offset c = 3331
    /\ readings Shipped.CHN_AMOUNT (env_numbered (Z.to_nat 23331)) = [0; 58; 131; 0]
    /\ readings Shipped.CHN_AMOUNT (env_numbered (Z.to_nat 23330)) = [0; 58; 130; 0]
    /\ readings Shipped.CHN_AMOUNT (env_numbered (Z.to_nat 3332)) = [0; 8; 132; 0]
    /\ cap_window c !! 2%nat = Some 131
    /\ cap_window c !! Z.to_nat 79998 = Some 130.
Proof.
  unfold Shipped.samples, Shipped.CHN_AMOUNT, Shipped.threshold.
  assert (forall k, ioctl (env_numbered k) <> None) as Hio by done.
  assert (Z.to_nat 23331 = completion_tick 20000 (Z.to_nat 10000)) as Htc.
  { unfold completion_tick. change (sustain 20000) with 13333. lia. }
  destruct (continuous_first_capture 20000 4 450 ltac:(lia) ltac:(lia) env_numbered
              (fresh 80000) (fresh 80000) (Z.to_nat 10000)) as [_ Hat];
    [apply length_fresh | apply length_fresh | by vm_compute | done | done
    | apply env_numbered_quiet | |].
  { rewrite readings_env_numbered by lia. by rewrite Nat.eqb_refl. }
  destruct (window_at_order 20000 4 ltac:(lia) ltac:(lia) env_numbered (fresh 80000)
              (Z.to_nat 23331)) as [Hfirst Hrest];
    [apply length_fresh | done | lia |].
  do 2 eexists. rewrite Htc, Hat, <- Htc.
  split; [reflexivity|]. cbn [capture_at cap_offset cap_window].
  split; [vm_compute; reflexivity|].
  rewrite !readings_env_numbered by lia.
  split; [vm_compute; reflexivity|].
  split; [vm_compute; reflexivity|].
  split; [vm_compute; reflexivity|].
  split.
  - rewrite Hfirst, readings_env_numbered by lia. vm_compute. reflexivity.
  - replace (Z.to_nat 79998) with (Z.to_nat 19999 * Z.to_nat 4 + 2)%nat by lia.
    rewrite Hrest, readings_env_numbered by lia.
    replace (Z.to_nat 23331 + Z.to_nat 19999 - Z.to_nat 20000)%nat
      with (Z.to_nat 23330) by lia.
    vm_compute. reflexivity.
Qed.

(** C3 on the shipped configuration: every channel reads 500 from the first
    tick on, so the capture completes at tick 13331, when only 13332 of the
    20000 slots were written; position 1 of the window is slot 13332, which
    still holds what the buffer held when it was allocated. *)
Lemma loud_start_captures_partial_window :
  exists st c,
    continuous Shipped.samples Shipped.CHN_AMOUNT Shipped.threshold env_loud
      (fresh 80000) (fresh 80000) (Z.to_nat 13332)
    = (Running st, [(Z.to_nat 13331, c)])
    /\ Z.of_nat (Z.to_nat 13331) < Shipped.samples - 1
    /\ cap_window c !! 4%nat = Some (-1).
Proof.
  unfold Shipped.samples, Shipped.CHN_AMOUNT, Shipped.threshold.
  assert (forall n k, (k < n)%nat -> tick_ok 20000 4 450 env_loud k) as Hok
    by (intros; apply good_tick_ok; by eexists).
  do 2 eexists.
  rewrite continuous_spec by first [lia | apply length_fresh | apply Hok].
  rewrite log_at_ticks by lia.
  assert ((trigger_run 20000 4 450 env_loud (Z.to_nat 13332)).2 = [Z.to_nat 13331])
    as -> by compute_done.
  split; [reflexivity|]. split; [lia|]. cbn [capture_at cap_window].
  change 4%nat with (1 * Z.to_nat 4 + 0)%nat.
  rewrite window_at_unwritten; [| lia | lia | apply length_fresh | done | lia | lia | lia].
  apply lookup_replicate_2. lia.
Qed.


(** C5, at an input the shipped program can receive: every channel reads
    500 from the first tick on and [fopen] returns [NULL] (the directory
    [../tmp] is missing, say).  The window is complete at tick 13331;
    [write_file] hands the null stream to [fprintf], and the run ends there
    with [s_counter] still 13333: it is not reset, and no tick is sampled
    afterwards. *)
Theorem open_failure_ends_run :
  exists st,
    continuous Shipped.samples Shipped.CHN_AMOUNT Shipped.threshold env_no_file
      (fresh 80000) (fresh 80000) (Z.to_nat 13332)
    = (Crashed st, [])
    /\ continuous Shipped.samples Shipped.CHN_AMOUNT Shipped.threshold env_no_file
         (fresh 80000) (fresh 80000) (Z.to_nat 20000)
       = (Crashed st, [])
    /\ st_s_counter st = 13333.
Proof.
  unfold Shipped.samples, Shipped.CHN_AMOUNT, Shipped.threshold.
  destruct (first_capture 20000 4 450 ltac:(lia) ltac:(lia) env_no_file 0)
    as [Hnone Hdone]; [vm_compute; discriminate | intros; lia | reflexivity |].
  change (completion_tick 20000 0) with (Z.to_nat 13331) in *.
  assert (forall k, (k < Z.to_nat 13331)%nat -> tick_ok 20000 4 450 env_no_file k) as Hok.
  { intros k Hk. split; [done|]. by rewrite Hnone. }
  pose proof (continuous_open_fails 20000 4 450 ltac:(lia) ltac:(lia) env_no_file
                (fresh 80000) (fresh 80000) (Z.to_nat 13331)
                ([500; 500; 500; 500] ≫= mcp3008_frame)
                (length_fresh _) (length_fresh _) Hok eq_refl Hdone eq_refl) as Hcrash.
  eexists. rewrite !Hcrash by lia. rewrite log_at_nil by done.
  split; [reflexivity|]. split; [reflexivity|].
  cbn [st_s_counter]. vm_compute. reflexivity.
Qed.

(** * The theorems at concrete inputs *)

(** A run of the small configuration, evaluated in full: the first reading
    at the threshold comes at tick 3, the window is complete at tick 5, and
    the window starts with tick 5 followed by ticks 0 to 4. *)
Example small_run :
  continuous 6 2 450 env_small (fresh 12) (fresh 12) 6
  = (Running {| st_i := 6;
                st_data := [0; 0; 0; 1; 0; 2; 500; 3; 0; 4; 0; 5];
                st_data_fixed := [0; 5; 0; 0; 0; 1; 0; 2; 500; 3; 0; 4];
                st_s_counter := 0 |},
     [(5%nat,
       {| cap_offset := 5; cap_s_counter := 4;
          cap_window := [0; 5; 0; 0; 0; 1; 0; 2; 500; 3; 0; 4];
          cap_file := Some [[0; 5]; [0; 0]; [0; 1]; [0; 2]; [500; 3]; [0; 4]] |})]).
Proof. vm_compute. reflexivity. Qed.

(** When the file cannot be written the loop goes on and the counter is
    reset: only the crash on a null stream stops it. *)
Lemma write_error_continues (samples CHN_AMOUNT threshold : Z) e st data s :
  channel_loop CHN_AMOUNT threshold (spi_transfer CHN_AMOUNT (ioctl e))
    (wrap samples (st_i st)) (st_data st) (st_s_counter st) = Some (data, s) ->
  (if s =? 0 then s else s + 1) >= sustain samples ->
  fopen e = true -> fprintf e = false ->
  exists st' c,
    loop_body samples CHN_AMOUNT threshold e st = Next st' (Some c)
    /\ cap_file c = None /\ st_s_counter st' = 0.
Proof.
  intros Hloop Hs Hopen Hprint. unfold loop_body, write_file.
  rewrite Hloop, Hopen, Hprint.
  destruct (Z.geb_spec (if s =? 0 then s else s + 1) (sustain samples)); [|lia].
  do 2 eexists. split; [reflexivity|]. split; reflexivity.
Qed.

Lemma extraction_starts_at_trigger_tick_witness :
  (5%nat, small_capture) ∈ (continuous 6 2 450 env_small (fresh 12) (fresh 12) 6).2
  /\ 6 <= Z.of_nat 5 + 1
  /\ cap_window small_capture !! 0%nat = readings 2 (env_small 5) !! 0%nat
  /\ cap_window small_capture !! 2%nat = readings 2 (env_small 0) !! 0%nat.
Proof.
  assert ((5%nat, small_capture)
          ∈ (continuous 6 2 450 env_small (fresh 12) (fresh 12) 6).2) as Hin.
  { vm_compute. apply list_elem_of_here. }
  destruct (extraction_starts_at_trigger_tick 6 2 450 ltac:(lia) ltac:(lia)
              env_small (fresh 12) (fresh 12) 6 5 small_capture
              eq_refl eq_refl Hin ltac:(lia)) as (_ & _ & Hfirst & Hrest).
  split; [exact Hin|]. split; [lia|]. split.
  - apply (Hfirst 0%nat). simpl. lia.
  - apply (Hrest 1%nat 0%nat); simpl; lia.
Defined.

Lemma capture_completes_after_sustain_witness :
  2 <= sustain 6
  /\ crossing 450 (readings 2 (env_small_early 0)) = false
  /\ crossing 450 (readings 2 (env_small_early 1)) = true
  /\ exists st c,
       continuous 6 2 450 env_small_early (fresh 12) (fresh 12) 4
       = (Running st, [(3%nat, c)])
       /\ cap_s_counter c = 4 /\ st_s_counter st = 0.
Proof.
  assert (2 <= sustain 6) as Hs by (vm_compute; discriminate).
  split; [exact Hs|]. split; [reflexivity|]. split; [reflexivity|].
  destruct (capture_completes_after_sustain 6 2 450 ltac:(lia) ltac:(lia)
              env_small_early (fresh 12) (fresh 12) 1 eq_refl eq_refl Hs)
    as (_ & _ & Hdone).
  - intros k _. discriminate.
  - reflexivity.
  - intros k Hk. assert (k = 0%nat) as -> by lia. reflexivity.
  - reflexivity.
  - exact Hdone.
Defined.

Lemma capture_not_before_sustain_witness :
  (3%nat, small_early_capture)
    ∈ (continuous 6 2 450 env_small_early (fresh 12) (fresh 12) 4).2
  /\ sustain 6 - 2 <= Z.of_nat 3
  /\ cap_window small_early_capture !! 2%nat = fresh 12 !! 8%nat.
Proof.
  assert ((3%nat, small_early_capture)
          ∈ (continuous 6 2 450 env_small_early (fresh 12) (fresh 12) 4).2) as Hin.
  { vm_compute. apply list_elem_of_here. }
  destruct (capture_not_before_sustain 6 2 450 ltac:(lia) ltac:(lia)
              env_small_early (fresh 12) (fresh 12) 4 3 small_early_capture
              eq_refl eq_refl Hin) as (Hlate & Hraw).
  split; [exact Hin|]. split; [exact Hlate|].
  apply (Hraw 1%nat 0%nat); simpl; lia.
Defined.

Lemma transfer_failure_ends_run_witness :
  continuous 6 2 450 env_small_broken (fresh 12) (fresh 12) 2
  = (Running small_broken_state, [])
  /\ ioctl (env_small_broken 2) = None
  /\ continuous 6 2 450 env_small_broken (fresh 12) (fresh 12) 5
     = (Crashed {| st_i := 2; st_data := st_data small_broken_state;
                   st_data_fixed := st_data_fixed small_broken_state;
                   st_s_counter := 0 |}, []).
Proof.
  split; [reflexivity|]. split; [reflexivity|].
  apply (transfer_failure_ends_run 6 2 450 ltac:(lia) ltac:(lia)
           env_small_broken (fresh 12) (fresh 12) 2 small_broken_state []
           eq_refl eq_refl 5%nat).
  lia.
Defined.

Lemma counting_ignores_threshold_witness :
  st_s_counter small_counting_state = 2
  /\ exists st' ev,
       loop_body 6 2 450 (env_small 4) small_counting_state = Next st' ev
       /\ st_s_counter st' = 3.
Proof.
  split; [reflexivity|].
  destruct (counting_ignores_threshold 6 2 450 ltac:(lia) ltac:(lia)
              (env_small 4) small_counting_state ([0; 4] ≫= mcp3008_frame)
              eq_refl eq_refl) as (_ & Hcount & _).
  - simpl. lia.
  - reflexivity.
  - destruct Hcount as (st' & ev & Hbody & Hs & _); [discriminate|].
    exists st', ev. split; [exact Hbody | exact Hs].
Defined.

Lemma fix_buffer_returns_full_window_witness :
  length small_ring = Z.to_nat (6 * 2)
  /\ length (fix_buffer 6 2 small_ring (fresh 12) 2) = 12%nat.
Proof.
  split; [reflexivity|].
  apply (fix_buffer_returns_full_window 6 2 ltac:(lia) ltac:(lia)
           small_ring (fresh 12) 2 eq_refl eq_refl).
  lia.
Defined.

Lemma idle_triggers_iff_reading_reaches_threshold_witness :
  st_s_counter small_idle_state = 0
  /\ rx_reading ([450; 1] ≫= mcp3008_frame) (4 * 0) = 450
  /\ exists st',
       loop_body 6 2 450 (env_small_early 1) small_idle_state = Next st' None
       /\ st_s_counter st' = 2.
Proof.
  split; [reflexivity|]. split; [reflexivity|].
  destruct (idle_triggers_iff_reading_reaches_threshold 6 2 450
              ltac:(lia) ltac:(lia) (env_small_early 1) small_idle_state
              ([450; 1] ≫= mcp3008_frame) eq_refl)
    as (st' & Hbody & _ & Hequal & _).
  - simpl. lia.
  - reflexivity.
  - reflexivity.
  - vm_compute. discriminate.
  - exists st'. split; [exact Hbody|].
    apply Hequal. exists 0. split; [lia | reflexivity].
Defined.

Lemma single_measurement_stores_samples_once_witness :
  exists data,
    main 6 2 450 0 env_small (fresh 12) (fresh 12)
    = Returns (Some {| fin_state := {| st_i := 6; st_data := data;
                                       st_data_fixed := fresh 12;
                                       st_s_counter := 0 |};
                       fin_file := Some [[0; 0]; [0; 1]; [0; 2]; [500; 3]; [0; 4]; [0; 5]] |})
    /\ length data = 12%nat.
Proof.
  destruct (single_measurement_stores_samples_once 6 2 450 ltac:(lia) ltac:(lia)
              env_small (fresh 12) (fresh 12) eq_refl eq_refl)
    as (data & Hmain & Hlen & _).
  - intros k _. discriminate.
  - reflexivity.
  - reflexivity.
  - exists data. split; [exact Hmain | exact Hlen].
Defined.

Lemma fix_buffer_is_left_rotation_witness :
  0 <= 2 < 6
  /\ fix_buffer 6 2 small_ring (fresh 12) 2
     = [30; 31; 40; 41; 50; 51; 60; 61; 10; 11; 20; 21].
Proof.
  split; [lia|].
  destruct (fix_buffer_is_left_rotation 6 2 ltac:(lia) ltac:(lia)
              small_ring (fresh 12) 2 eq_refl eq_refl ltac:(lia))
    as (_ & Hrot & _).
  exact Hrot.
Defined.

(** * Further properties of the code *)

(** ** [init_spi] *)

Section SetupProperties.

Variable CHN_AMOUNT : Z.
Variable channels : list Z.
Hypothesis CHN_AMOUNT_pos : 0 < CHN_AMOUNT.

(** What the inner loop of [init_spi] has done after [n] channels. *)
Lemma init_spi_prefix (tx : list Z) (spitr : list spi_ioc_transfer) (n : nat) :
  let r := fold_left (init_spi_body CHN_AMOUNT channels 0) (seqZ 0 (Z.of_nat n))
             (tx, spitr) in
  length r.1 = length tx /\ length r.2 = length spitr
  /\ (forall k q : nat, (q < 4)%nat ->
        r.1 !! (4 * k + q)%nat
        = if decide (k < n /\ q < 2 /\ 4 * k + q < length tx)%nat
          then Some (if decide (q = 0%nat) then 1
                     else command channels (Z.of_nat k))
          else tx !! (4 * k + q)%nat)
  /\ (forall k : nat,
        r.2 !! k
        = if decide (k < n /\ k < length spitr)%nat
          then Some {| tx_buf := Z.of_nat k * 4; rx_buf := Z.of_nat k * 4; len := 3;
                       speed_hz := clockRate; cs_change := 1 |}
          else spitr !! k).
Proof.
  induction n as [|n IH].
  - cbv zeta. rewrite seqZ_nil by done. cbn [fold_left fst snd].
    split; [done|]. split; [done|]. split.
    + intros k q Hq. rewrite decide_False by lia. done.
    + intros k. rewrite decide_False by lia. done.
  - rewrite seqZ_S, fold_left_app. cbv zeta in *.
    set (r := fold_left _ (seqZ 0 (Z.of_nat n)) _) in *.
    destruct IH as (Hl1 & Hl2 & Htx & Hsp).
    cbn [fold_left init_spi_body fst snd]. rewrite !Z.mul_0_l, !Z.add_0_l.
    split; [|split; [|split]].
    + by rewrite !length_insert.
    + by rewrite length_insert.
    + intros k q Hq.
      replace (Z.to_nat (Z.of_nat n * 4 + 1)) with (4 * n + 1)%nat by lia.
      replace (Z.to_nat (Z.of_nat n * 4)) with (4 * n + 0)%nat by lia.
      destruct (decide ((4 * k + q)%nat = (4 * n + 1)%nat)) as [Heq|Hne1].
      { assert (k = n /\ q = 1%nat) as [-> ->] by lia.
        destruct (decide (4 * n + 1 < length tx)%nat).
        - rewrite list_lookup_insert_eq by (rewrite length_insert, Hl1; lia).
          rewrite decide_True by lia. by rewrite decide_False by lia.
        - rewrite list_insert_ge by (rewrite length_insert, Hl1; lia).
          rewrite list_lookup_insert_ne by lia. rewrite Htx by lia.
          by rewrite !decide_False by lia. }
      rewrite list_lookup_insert_ne by lia.
      destruct (decide ((4 * k + q)%nat = (4 * n + 0)%nat)) as [Heq|Hne0].
      { assert (k = n /\ q = 0%nat) as [-> ->] by lia.
        destruct (decide (4 * n + 0 < length tx)%nat).
        - rewrite list_lookup_insert_eq by (rewrite Hl1; lia).
          by rewrite !decide_True by lia.
        - rewrite list_insert_ge by (rewrite Hl1; lia). rewrite Htx by lia.
          by rewrite !decide_False by lia. }
      rewrite list_lookup_insert_ne by lia. rewrite Htx by lia.
      repeat case_decide; (done || lia).
    + intros k. rewrite Nat2Z.id.
      destruct (decide (k = n)) as [->|Hk].
      * destruct (decide (n < length spitr)%nat).
        -- rewrite list_lookup_insert_eq by (rewrite Hl2; lia).
           by rewrite decide_True by lia.
        -- rewrite list_insert_ge by (rewrite Hl2; lia). rewrite Hsp.
           by rewrite !decide_False by lia.
      * rewrite list_lookup_insert_ne by lia. rewrite Hsp.
        repeat case_decide; (done || lia).
Qed.


Lemma init_spi_unfold (tx : list Z) :
  init_spi CHN_AMOUNT channels true tx
  = let filled := fold_left (init_spi_body CHN_AMOUNT channels 0)
                    (seqZ 0 (Z.of_nat (Z.to_nat CHN_AMOUNT)))
                    (tx, replicate (Z.to_nat (CHN_AMOUNT * blocks)) spitr_zero) in
    Some (filled.1, clear_last_cs CHN_AMOUNT filled.2).
Proof.
  unfold init_spi. change (seqZ 0 blocks) with [0]. cbn [fold_left].
  by rewrite Z2Nat.id by lia.
Qed.

(** X1.  [init_spi] writes the two command bytes of every channel, the
    start bit [1] and [1 << 7 | channel << 4], at the first two positions of
    the channel's 4-byte slot of [tx], and never touches the other two
    positions of the slot. *)
Theorem init_spi_writes_command_bytes (tx : list Z) :
  length tx = Z.to_nat (CHN_AMOUNT * blocks * 4) ->
  exists tx' spitr,
    init_spi CHN_AMOUNT channels true tx = Some (tx', spitr)
    /\ length tx' = length tx
    /\ forall k : nat, Z.of_nat k < CHN_AMOUNT ->
         tx' !! (4 * k)%nat = Some 1
         /\ tx' !! (4 * k + 1)%nat = Some (command channels (Z.of_nat k))
         /\ tx' !! (4 * k + 2)%nat = tx !! (4 * k + 2)%nat
         /\ tx' !! (4 * k + 3)%nat = tx !! (4 * k + 3)%nat.
Proof.
  intros Hlen. rewrite init_spi_unfold. cbv zeta.
  destruct (init_spi_prefix tx (replicate (Z.to_nat (CHN_AMOUNT * blocks)) spitr_zero)
              (Z.to_nat CHN_AMOUNT)) as (Hl1 & _ & Htx & _).
  do 2 eexists. split; [reflexivity|]. split; [done|].
  unfold blocks in Hlen. intros k Hk.
  pose proof (Htx k 0%nat ltac:(lia)) as H0. rewrite Nat.add_0_r in H0.
  rewrite H0, (Htx k 1%nat), (Htx k 2%nat), (Htx k 3%nat) by lia.
  rewrite !decide_True by lia. rewrite !decide_False by lia. done.
Qed.

(** X2.  [init_spi] describes one transfer of 3 bytes per channel, at
    [clockRate], sending from and receiving into the channel's 4-byte slot,
    and deselects the device after every transfer except the last one. *)
Theorem init_spi_describes_transfers (tx : list Z) :
  exists tx' spitr,
    init_spi CHN_AMOUNT channels true tx = Some (tx', spitr)
    /\ length spitr = Z.to_nat CHN_AMOUNT
    /\ forall k : nat, Z.of_nat k < CHN_AMOUNT ->
         spitr !! k
         = Some {| tx_buf := 4 * Z.of_nat k; rx_buf := 4 * Z.of_nat k; len := 3;
                   speed_hz := clockRate;
                   cs_change := if decide (Z.of_nat k = CHN_AMOUNT - 1) then 0 else 1 |}.
Proof.
  rewrite init_spi_unfold. cbv zeta.
  destruct (init_spi_prefix tx (replicate (Z.to_nat (CHN_AMOUNT * blocks)) spitr_zero)
              (Z.to_nat CHN_AMOUNT)) as (_ & Hl2 & _ & Hsp).
  rewrite length_replicate in Hl2, Hsp. unfold blocks in *.
  do 2 eexists. split; [reflexivity|]. cbn [snd]. unfold clear_last_cs, blocks.
  split; [rewrite length_alter, Hl2; lia|].
  intros k Hk.
  destruct (decide (Z.of_nat k = CHN_AMOUNT - 1)) as [Hlast|Hlast].
  - replace (Z.to_nat (CHN_AMOUNT * 1 - 1)) with k by lia.
    rewrite list_lookup_alter_eq, Hsp, decide_True by lia. simpl.
    do 2 f_equal; lia.
  - rewrite list_lookup_alter_ne by lia.
    rewrite Hsp, decide_True by lia. do 2 f_equal; lia.
Qed.

(** X3.  For a channel number between 0 and 7 the command byte is
    [128 + 16 * channel]: bit 7 (single-ended mode) is set and the channel
    is read back from bits 4 to 6. *)
Theorem command_encodes_channel (j ch : Z) :
  channels !! Z.to_nat j = Some ch -> 0 <= ch < 8 ->
  command channels j = 128 + 16 * ch
  /\ Z.testbit (command channels j) 7 = true
  /\ Z.land (Z.shiftr (command channels j) 4) 7 = ch.
Proof.
  intros Hj Hch. unfold command.
  rewrite (list_lookup_total_correct _ _ _ Hj).
  assert (ch = 0 \/ ch = 1 \/ ch = 2 \/ ch = 3 \/ ch = 4 \/ ch = 5 \/ ch = 6 \/ ch = 7)
    as Hcases by lia.
  by repeat destruct Hcases as [->|Hcases]; try subst ch.
Qed.

(** X4.  The third byte of every transfer is sent ([len] is 3) but is
    written by no one: [main] clears only the first [CHN_AMOUNT * blocks]
    bytes of [tx] and [init_spi] writes the first two bytes of each slot.
    It is 0 where the [memset] reached it and what [malloc] returned
    elsewhere. *)
Theorem third_byte_left_as_allocated (tx0 : list Z) :
  length tx0 = Z.to_nat (CHN_AMOUNT * blocks * 4) ->
  exists tx' spitr,
    main_setup CHN_AMOUNT channels true tx0 = Some (tx', spitr)
    /\ forall k : nat, Z.of_nat k < CHN_AMOUNT ->
         tx' !! (4 * k + 2)%nat
         = if decide (4 * Z.of_nat k + 2 < CHN_AMOUNT) then Some 0
           else tx0 !! (4 * k + 2)%nat.
Proof.
  intros Hlen. unfold main_setup. rewrite init_spi_unfold. cbv zeta.
  unfold blocks in *.
  destruct (init_spi_prefix (memset_zero tx0 (CHN_AMOUNT * 1))
              (replicate (Z.to_nat (CHN_AMOUNT * 1)) spitr_zero)
              (Z.to_nat CHN_AMOUNT)) as (_ & _ & Htx & _).
  do 2 eexists. split; [reflexivity|]. intros k Hk. cbn [fst].
  rewrite (Htx k 2%nat) by lia. rewrite decide_False by lia.
  unfold memset_zero. rewrite Nat.min_l by lia. case_decide.
  - rewrite lookup_app_l by (rewrite length_replicate; lia).
    apply lookup_replicate_2. lia.
  - rewrite lookup_app_r by (rewrite length_replicate; lia).
    rewrite length_replicate, lookup_drop. f_equal. lia.
Qed.

End SetupProperties.

(** ** [spi_transfer] *)

(** X5.  Whatever bytes the device returns, a successful [spi_transfer]
    yields one reading per channel and every reading is a 10-bit value. *)
Theorem spi_transfer_readings_are_10_bit (CHN_AMOUNT : Z) (rx b : list Z) :
  Forall (fun byte => 0 <= byte < 256) rx ->
  spi_transfer CHN_AMOUNT (Some rx) = Some b ->
  length b = Z.to_nat (CHN_AMOUNT * blocks)
  /\ Forall (fun v => 0 <= v <= 1023) b.
Proof.
  intros Hrx [= <-]. split; [by rewrite length_fmap, length_seqZ|].
  apply Forall_fmap, Forall_forall. intros i _. by apply rx_reading_range.
Qed.

(** X6.  The reading of a channel is the 10-bit value that the second and
    third byte of its slot carry: the upper six bits of the second byte and
    the first and fourth byte of the slot have no influence. *)
Theorem rx_reading_decodes_frame (rx : list Z) (j v u : Z) :
  0 <= v < 1024 -> 0 <= u ->
  rx !! Z.to_nat (j + 1) = Some (4 * u + v / 256) ->
  rx !! Z.to_nat (j + 2) = Some (v mod 256) ->
  rx_reading rx j = v.
Proof.
  intros Hv Hu H1 H2. unfold rx_reading.
  rewrite (list_lookup_total_correct _ _ _ H1), (list_lookup_total_correct _ _ _ H2).
  rewrite Z.shiftl_mul_pow2 by lia.
  change 3 with (Z.ones 2). rewrite Z.land_ones by lia.
  assert (0 <= v / 256 < 4).
  { split; [apply Z.div_pos; lia | apply Z.div_lt_upper_bound; lia]. }
  replace (4 * u + v / 256) with (v / 256 + u * 2 ^ 2) by lia.
  rewrite Z_mod_plus_full, Z.mod_small by lia.
  pose proof (Z.div_mod v 256 ltac:(lia)). lia.
Qed.

Section BufferProperties.

Variables samples CHN_AMOUNT : Z.
Hypothesis samples_pos : 0 < samples.
Hypothesis CHN_AMOUNT_pos : 0 < CHN_AMOUNT.

Local Abbreviation N := (samples * CHN_AMOUNT).

(** ** More on [fix_buffer] *)



(** X8.  [fix_buffer] overwrites all of [buf_r]: the window does not
    depend on what [buf_r] held before, in particular not on the window of
    an earlier capture. *)
Theorem fix_buffer_forgets_old_window (buf buf_r buf_r' : list Z) (offset : Z) :
  length buf = Z.to_nat N -> length buf_r = Z.to_nat N ->
  length buf_r' = Z.to_nat N -> 0 <= offset < samples ->
  fix_buffer samples CHN_AMOUNT buf buf_r offset
  = fix_buffer samples CHN_AMOUNT buf buf_r' offset.
Proof.
  intros Hb Hr Hr' Ho. by rewrite !fix_buffer_rotate by (done || lia).
Qed.

Lemma rotate_rotate_slots (buf : list Z) (a b : Z) :
  length buf = Z.to_nat N -> 0 <= a -> 0 <= b ->
  rotate (Z.to_nat (b * CHN_AMOUNT)) (rotate (Z.to_nat (a * CHN_AMOUNT)) buf)
  = rotate (Z.to_nat (((a + b) mod samples) * CHN_AMOUNT)) buf.
Proof.
  intros Hb Ha Hb0. assert (0 < N) as HN by lia.
  pose proof (Z.mod_pos_bound (a + b) samples samples_pos) as Hm.
  apply list_eq. intros i.
  destruct (decide (i < length buf)%nat) as [Hi|Hi].
  - rewrite (lookup_rotate_r (rotate _ buf)) by (rewrite length_rotate; lia).
    rewrite length_rotate.
    rewrite (lookup_rotate_r buf (Z.to_nat (a * CHN_AMOUNT)))
      by (apply rotate_nat_add_lt; lia).
    rewrite (lookup_rotate_r buf) by lia.
    f_equal. unfold rotate_nat_add. rewrite Hb.
    rewrite !Z2Nat.id by first [lia | nia | apply Z.mod_pos_bound; lia].
    f_equal. rewrite Zplus_mod_idemp_r.
    pose proof (Z.div_mod (a + b) samples ltac:(lia)) as Hd.
    replace (a * CHN_AMOUNT + (b * CHN_AMOUNT + Z.of_nat i))
      with ((a + b) mod samples * CHN_AMOUNT + Z.of_nat i
            + ((a + b) / samples) * N) by nia.
    by rewrite Z_mod_plus_full.
  - rewrite !lookup_ge_None_2; [done | |]; rewrite ?length_rotate; lia.
Qed.

(** X9.  Linearising twice composes: rotating by [a] slots and then by [b]
    slots is rotating by [(a + b) mod samples] slots, so that a second call
    with offset [(samples - a) mod samples] gives the ring back. *)
Theorem fix_buffer_composes (buf r1 r2 r3 : list Z) (a b : Z) :
  length buf = Z.to_nat N -> length r1 = Z.to_nat N ->
  length r2 = Z.to_nat N -> length r3 = Z.to_nat N ->
  0 <= a < samples -> 0 <= b < samples ->
  fix_buffer samples CHN_AMOUNT (fix_buffer samples CHN_AMOUNT buf r1 a) r2 b
  = fix_buffer samples CHN_AMOUNT buf r3 ((a + b) mod samples)
  /\ fix_buffer samples CHN_AMOUNT (fix_buffer samples CHN_AMOUNT buf r1 a) r2
       ((samples - a) mod samples)
     = buf.
Proof.
  intros Hb H1 H2 H3 Ha Hb0.
  pose proof (Z.mod_pos_bound (a + b) samples samples_pos).
  pose proof (Z.mod_pos_bound (samples - a) samples samples_pos).
  rewrite !(fix_buffer_rotate samples CHN_AMOUNT samples_pos CHN_AMOUNT_pos buf)
    by (done || lia).
  rewrite !fix_buffer_rotate by (rewrite ?length_rotate; done || lia).
  rewrite !rotate_rotate_slots by (done || lia). split; [done|].
  rewrite Zplus_mod_idemp_r. replace (a + (samples - a)) with samples by lia.
  rewrite Z.mod_same by lia. unfold rotate. rewrite Z.mul_0_l. simpl.
  destruct (length buf); simpl; [|rewrite Nat.sub_diag]; by rewrite ?app_nil_r.
Qed.

(** ** [write_file] *)

Lemma csv_row_chunk (data : list Z) (r : nat) :
  length data = Z.to_nat N -> Z.of_nat r < samples ->
  csv_row CHN_AMOUNT data (Z.of_nat r * CHN_AMOUNT)
  = take (Z.to_nat CHN_AMOUNT) (drop (r * Z.to_nat CHN_AMOUNT) data).
Proof.
  intros Hlen Hr. apply csv_row_spec; [done | lia | |].
  - rewrite length_take, length_drop. nia.
  - intros j Hj. rewrite lookup_take_lt, lookup_drop by lia. f_equal. nia.
Qed.

Lemma concat_chunks (data : list Z) (c n : nat) :
  concat ((fun r => take c (drop (r * c) data)) <$> seq 0 n) = take (n * c) data.
Proof.
  induction n as [|n IH]; [done|].
  rewrite seq_S, fmap_app, concat_app, IH. simpl. rewrite app_nil_r.
  rewrite take_take_drop. f_equal. lia.
Qed.

(** X10.  When the file opens and every [fprintf] succeeds, [write_file]
    writes [samples] lines of [CHN_AMOUNT] values each, and the lines put
    end to end are the buffer it was given: nothing is dropped, repeated or
    reordered. *)
Theorem write_file_writes_whole_buffer (data : list Z) (e : tick_env) :
  length data = Z.to_nat N -> fopen e = true -> fprintf e = true ->
  exists rows,
    write_file samples CHN_AMOUNT data e = Some (Some rows)
    /\ length rows = Z.to_nat samples
    /\ Forall (fun row => length row = Z.to_nat CHN_AMOUNT) rows
    /\ concat rows = data.
Proof.
  intros Hlen Hopen Hprint. unfold write_file. rewrite Hopen, Hprint.
  eexists. split; [reflexivity|].
  assert (csv_rows samples CHN_AMOUNT data
          = (fun r => take (Z.to_nat CHN_AMOUNT) (drop (r * Z.to_nat CHN_AMOUNT) data))
              <$> seq 0 (Z.to_nat samples)) as ->.
  { unfold csv_rows, seqZ. rewrite <- list_fmap_compose. apply list_fmap_ext.
    intros i r Hr. apply lookup_seq in Hr as [-> Hr]. simpl.
    rewrite Z.add_0_r. apply csv_row_chunk; [done | lia]. }
  split; [by rewrite length_fmap, length_seq|]. split.
  - apply Forall_fmap, Forall_forall. intros r Hr. apply in_seq in Hr. simpl.
    rewrite length_take, length_drop. nia.
  - rewrite concat_chunks. apply take_ge. nia.
Qed.

End BufferProperties.

(** ** Whether [fprintf] succeeds *)

Lemma loop_body_fprintf (samples CHN_AMOUNT threshold : Z) (e1 e2 : tick_env) st :
  ioctl e1 = ioctl e2 -> fopen e1 = fopen e2 ->
  match loop_body samples CHN_AMOUNT threshold e1 st,
        loop_body samples CHN_AMOUNT threshold e2 st with
  | Next s1 ev1, Next s2 ev2 => s1 = s2 /\ forget_file <$> ev1 = forget_file <$> ev2
  | Crash s1, Crash s2 => s1 = s2
  | _, _ => False
  end.
Proof.
  intros Hio Hopen. unfold loop_body, write_file. rewrite Hio, Hopen.
  destruct (channel_loop _ _ _ _ _ _) as [[data s]|]; [|done].
  destruct (_ >=? sustain samples); [|done].
  by destruct (fopen e2).
Qed.

(** X11.  A failing [fprintf] is not noticed: two runs that differ only in
    what [fprintf] answers go through the same states, stop or go on at the
    same ticks, and capture the same windows at the same ticks. *)
Theorem fprintf_failure_goes_unnoticed
    (samples CHN_AMOUNT threshold : Z) (env1 env2 : nat -> tick_env)
    (data0 fixed0 : list Z) (n : nat) :
  (forall k, ioctl (env1 k) = ioctl (env2 k) /\ fopen (env1 k) = fopen (env2 k)) ->
  (continuous samples CHN_AMOUNT threshold env1 data0 fixed0 n).1
  = (continuous samples CHN_AMOUNT threshold env2 data0 fixed0 n).1
  /\ prod_map id forget_file
       <$> (continuous samples CHN_AMOUNT threshold env1 data0 fixed0 n).2
     = prod_map id forget_file
       <$> (continuous samples CHN_AMOUNT threshold env2 data0 fixed0 n).2.
Proof.
  intros Hagree. induction n as [|n [IH1 IH2]]; [done|].
  cbn [continuous].
  destruct (continuous _ _ _ env1 data0 fixed0 n) as [o1 log1].
  destruct (continuous _ _ _ env2 data0 fixed0 n) as [o2 log2].
  simpl in IH1, IH2. subst o2.
  destruct o1 as [st|st]; [|done].
  destruct (Hagree n) as [Hio Hopen].
  pose proof (loop_body_fprintf samples CHN_AMOUNT threshold _ _ st Hio Hopen) as Hstep.
  destruct (loop_body _ _ _ (env1 n) st) as [s1 [c1|]|s1],
           (loop_body _ _ _ (env2 n) st) as [s2 [c2|]|s2];
    try done; simpl in *.
  - destruct Hstep as [-> [= Hc Hs Hw]]. split; [done|].
    f_equal; [|exact IH2]. unfold forget_file. congruence.
  - by destruct Hstep as [_ ?].
  - by destruct Hstep as [_ ?].
  - by destruct Hstep as [-> _].
  - by subst.
Qed.

Section RunProperties.

Variables samples CHN_AMOUNT threshold : Z.
Hypothesis samples_pos : 0 < samples.
Hypothesis CHN_AMOUNT_pos : 0 < CHN_AMOUNT.

Local Abbreviation N := (samples * CHN_AMOUNT).

(** ** The ring while the loop runs *)

(** X12.  One iteration of the continuous loop stores the readings of the
    tick in the slot [i] and changes no other position of [data]; the
    buffer keeps its length and [i] moves on by one. *)
Theorem loop_body_writes_one_slot e st st' ev rx :
  ioctl e = Some rx -> 0 <= st_i st <= samples ->
  length (st_data st) = Z.to_nat N ->
  loop_body samples CHN_AMOUNT threshold e st = Next st' ev ->
  let i := wrap samples (st_i st) in
  st_i st' = i + 1
  /\ length (st_data st') = Z.to_nat N
  /\ (forall j, (j < Z.to_nat CHN_AMOUNT)%nat ->
        st_data st' !! (Z.to_nat (i * CHN_AMOUNT) + j)%nat
        = readings CHN_AMOUNT e !! j)
  /\ (forall p, (p < Z.to_nat (i * CHN_AMOUNT)
                 \/ Z.to_nat ((i + 1) * CHN_AMOUNT) <= p)%nat ->
        st_data st' !! p = st_data st !! p).
Proof.
  intros Hrx Hi Hlen Hbody. cbv zeta.
  assert (0 <= wrap samples (st_i st) < samples) as Hw.
  { unfold wrap. destruct (Z.geb_spec (st_i st) samples); lia. }
  assert (length (readings CHN_AMOUNT e) = Z.to_nat CHN_AMOUNT) as Hb.
  { apply length_readings; [done | congruence]. }
  assert (Z.to_nat (wrap samples (st_i st) * CHN_AMOUNT)
          + length (readings CHN_AMOUNT e) <= length (st_data st))%nat as Hfit.
  { rewrite Hb, Hlen. by apply slot_fits. }
  rewrite (loop_body_transfer _ _ _ samples_pos CHN_AMOUNT_pos _ _ rx) in Hbody by done.
  cbv zeta in Hbody.
  assert (st_i st' = wrap samples (st_i st) + 1
          /\ st_data st' = ring_write CHN_AMOUNT (st_data st) (wrap samples (st_i st))
                             (readings CHN_AMOUNT e)) as [Hi' ->].
  { destruct (_ >=? sustain samples); [destruct (fopen e); [|done]|];
      by injection Hbody as <- _. }
  split; [done|]. split; [rewrite length_ring_write; (done || lia)|]. split.
  - intros j Hj. apply lookup_ring_write_in; (done || lia).
  - intros p Hp. apply lookup_ring_write_out; [done | lia | done |].
    rewrite Hb. nia.
Qed.

(** X13.  While the loop runs, [data] holds every one of the last
    [samples] ticks in its slot [tick mod samples]; a slot that no tick has
    reached yet holds what the buffer held when it was allocated. *)
Theorem ring_holds_latest_ticks env data0 fixed0 (n : nat) st log :
  length data0 = Z.to_nat N -> length fixed0 = Z.to_nat N ->
  continuous samples CHN_AMOUNT threshold env data0 fixed0 n = (Running st, log) ->
  (forall m j : nat, (m < n)%nat -> Z.of_nat n <= Z.of_nat m + samples ->
     (j < Z.to_nat CHN_AMOUNT)%nat ->
     st_data st !! (Z.to_nat ((Z.of_nat m mod samples) * CHN_AMOUNT) + j)%nat
     = readings CHN_AMOUNT (env m) !! j)
  /\ (forall (p : Z) (j : nat), Z.of_nat n <= p < samples ->
     (j < Z.to_nat CHN_AMOUNT)%nat ->
     st_data st !! (Z.to_nat (p * CHN_AMOUNT) + j)%nat
     = data0 !! (Z.to_nat (p * CHN_AMOUNT) + j)%nat).
Proof.
  intros H0 Hf Hrun.
  pose proof (continuous_running _ _ _ samples_pos CHN_AMOUNT_pos _ _ _ _ _ _ H0 Hf Hrun)
    as Hok.
  rewrite (continuous_spec _ _ _ samples_pos CHN_AMOUNT_pos _ _ _ _ H0 Hf Hok) in Hrun.
  injection Hrun as <- <-.
  assert (forall k, (k < n)%nat -> ioctl (env k) <> None) as Hio.
  { intros k Hk. by apply Hok. }
  split.
  - intros m j Hm Hn Hj. by apply (ring_at_lookup samples CHN_AMOUNT).
  - intros p j Hp Hj. by apply (ring_at_untouched samples CHN_AMOUNT).
Qed.

(** X14.  While the loop runs, [i] stays within [0 .. samples] and names
    the slot of the next tick, [s_counter] stays within
    [0 .. (samples*2)/3 - 1], and both buffers keep their length: no index
    leaves the buffers and no [int] overflows. *)
Theorem continuous_keeps_indices_in_range env data0 fixed0 (n : nat) st log :
  length data0 = Z.to_nat N -> length fixed0 = Z.to_nat N ->
  continuous samples CHN_AMOUNT threshold env data0 fixed0 n = (Running st, log) ->
  0 <= st_i st <= samples
  /\ wrap samples (st_i st) = Z.of_nat n mod samples
  /\ 0 <= st_s_counter st <= Z.max 0 (sustain samples - 1)
  /\ length (st_data st) = Z.to_nat N
  /\ length (st_data_fixed st) = Z.to_nat N.
Proof.
  intros H0 Hf Hrun.
  destruct (continuous_bounds _ _ _ samples_pos CHN_AMOUNT_pos _ _ _ _ _ _ H0 Hf Hrun)
    as (Hi & Hs & Hd & Hx).
  repeat split; try done; try lia.
  pose proof (continuous_running _ _ _ samples_pos CHN_AMOUNT_pos _ _ _ _ _ _ H0 Hf Hrun)
    as Hok.
  rewrite (continuous_spec _ _ _ samples_pos CHN_AMOUNT_pos _ _ _ _ H0 Hf Hok) in Hrun.
  injection Hrun as <- <-. cbn [state_at st_i].
  by rewrite wrap_index.
Qed.

(** ** The trigger over whole runs *)

(** X15.  As long as no reading reaches the threshold the loop only
    samples: nothing is captured, [s_counter] stays 0 and [data_fixed] is
    never written. *)
Theorem quiet_run_captures_nothing env data0 fixed0 (n : nat) :
  length data0 = Z.to_nat N -> length fixed0 = Z.to_nat N ->
  1 <= sustain samples ->
  (forall k, (k < n)%nat -> ioctl (env k) <> None) ->
  (forall k, (k < n)%nat -> crossing threshold (readings CHN_AMOUNT (env k)) = false) ->
  exists st,
    continuous samples CHN_AMOUNT threshold env data0 fixed0 n = (Running st, [])
    /\ st_s_counter st = 0 /\ st_data_fixed st = fixed0.
Proof.
  intros H0 Hf Hs Hio Hq.
  destruct (counter_quiet samples CHN_AMOUNT threshold samples_pos CHN_AMOUNT_pos env n
              Hs Hq) as [Hc Hnone].
  eexists. rewrite continuous_spec; [| done | done | done | done |].
  2:{ intros k Hk. split; [by apply Hio|]. by rewrite Hnone. }
  rewrite log_at_nil by done. split; [done|]. split; [done|].
  cbn [state_at st_data_fixed]. unfold fixed_at. by rewrite log_at_nil.
Qed.

Lemma counter_loud env (n : nat) :
  3 <= sustain samples ->
  (forall k, (k < n)%nat -> crossing threshold (readings CHN_AMOUNT (env k)) = true) ->
  counter_at samples CHN_AMOUNT threshold env n
  = (if Z.of_nat n mod (sustain samples - 1) =? 0 then 0
     else Z.of_nat n mod (sustain samples - 1) + 1)
  /\ forall t, (t < n)%nat ->
       completes_at samples CHN_AMOUNT threshold env t
       = ((Z.of_nat t + 1) mod (sustain samples - 1) =? 0).
Proof.
  intros Hs. set (P := sustain samples - 1). assert (2 <= P) as HP by (unfold P; lia).
  induction n as [|n IH]; intros Hx.
  - split; [by rewrite Z.mod_0_l by lia | lia].
  - destruct IH as [IHc IHt]; [auto with lia|].
    pose proof (Z.mod_pos_bound (Z.of_nat n) P ltac:(lia)) as Hr.
    pose proof (wrap_mod_succ P (Z.of_nat n) ltac:(lia) ltac:(lia)) as Hw.
    unfold wrap in Hw.
    assert (trigger samples threshold (counter_at samples CHN_AMOUNT threshold env n)
              (readings CHN_AMOUNT (env n))
            = (if (Z.of_nat n + 1) mod P =? 0 then 0 else (Z.of_nat n + 1) mod P + 1,
               (Z.of_nat n + 1) mod P =? 0)) as Htrig.
    { rewrite IHc. destruct (Z.eqb_spec (Z.of_nat n mod P) 0) as [H0|H0].
      - rewrite trigger_idle_crossing by first [done | apply Hx; lia].
        rewrite H0 in Hw. destruct (Z.geb_spec (0 + 1) P); [lia|].
        rewrite <- Hw. destruct (Z.geb_spec 2 (sustain samples)); [lia|]. done.
      - rewrite trigger_counting by lia.
        destruct (Z.geb_spec (Z.of_nat n mod P + 1) P).
        + rewrite <- Hw. destruct (Z.geb_spec (Z.of_nat n mod P + 1 + 1) (sustain samples));
            [done | unfold P in *; lia].
        + rewrite <- Hw.
          destruct (Z.geb_spec (Z.of_nat n mod P + 1 + 1) (sustain samples));
            [unfold P in *; lia|].
          destruct (Z.eqb_spec (Z.of_nat n mod P + 1) 0); [lia | done]. }
    split.
    + rewrite counter_at_S by done. rewrite Htrig. cbn [fst].
      by replace (Z.of_nat (S n)) with (Z.of_nat n + 1) by lia.
    + intros t Ht. destruct (decide (t = n)) as [->|?]; [|apply IHt; lia].
      unfold completes_at. by rewrite Htrig.
Qed.

(** X16.  Under a signal that stays at or above the threshold the trigger
    fires again on the tick after each capture: a window is completed
    exactly at the ticks [t] with [t + 1] a multiple of
    [(samples*2)/3 - 1], so consecutive windows overlap. *)
Theorem sustained_signal_captures_periodically env data0 fixed0 (n t : nat) :
  length data0 = Z.to_nat N -> length fixed0 = Z.to_nat N ->
  3 <= sustain samples ->
  (forall k, (k < n)%nat -> ioctl (env k) <> None /\ fopen (env k) = true) ->
  (forall k, (k < n)%nat -> crossing threshold (readings CHN_AMOUNT (env k)) = true) ->
  (exists c, (t, c) ∈ (continuous samples CHN_AMOUNT threshold env data0 fixed0 n).2)
  <-> (t < n)%nat /\ (Z.of_nat t + 1) mod (sustain samples - 1) = 0.
Proof.
  intros H0 Hf Hs Hok Hx.
  destruct (counter_loud env n Hs Hx) as [_ Hc].
  rewrite continuous_spec; [| done | done | done | done |].
  2:{ intros k Hk. destruct (Hok k Hk). by split. }
  cbn [snd]. split.
  - intros [c Hin]. apply log_at_elem in Hin as (Ht & Hdone & _); [|done..].
    split; [done|]. rewrite Hc in Hdone by done. by apply Z.eqb_eq.
  - intros [Ht Hmod]. eexists. apply log_at_elem; [done..|].
    split; [done|]. split; [|done]. rewrite Hc by done. by apply Z.eqb_eq.
Qed.

(** X17.  With [samples = 1] the bound [(samples*2)/3] is 0 and the test
    [s_counter >= (samples*2)/3] holds on every tick: every tick writes a
    file, whatever the readings are. *)
Theorem degenerate_bound_captures_every_tick env data0 fixed0 (n t : nat) :
  length data0 = Z.to_nat N -> length fixed0 = Z.to_nat N ->
  sustain samples <= 0 ->
  (forall k, (k < n)%nat -> ioctl (env k) <> None /\ fopen (env k) = true) ->
  (t < n)%nat ->
  exists c, (t, c) ∈ (continuous samples CHN_AMOUNT threshold env data0 fixed0 n).2.
Proof.
  intros H0 Hf Hs Hok Ht.
  rewrite continuous_spec; [| done | done | done | done |].
  2:{ intros k Hk. destruct (Hok k Hk). by split. }
  eexists. apply log_at_elem; [done..|]. split; [done|]. split; [|done].
  unfold completes_at, trigger, scan, bump.
  pose proof (counter_at_bounds samples CHN_AMOUNT threshold samples_pos CHN_AMOUNT_pos
                env t) as [Hb _].
  set (s := counter_at samples CHN_AMOUNT threshold env t) in *.
  destruct (Z.eqb_spec s 0) as [?|?].
  - destruct (crossing threshold _); simpl;
      match goal with |- context [?a >=? ?b] => destruct (Z.geb_spec a b) end;
      simpl; (done || lia).
  - destruct (Z.eqb_spec s 0); [done|].
    destruct (Z.geb_spec (s + 1) (sustain samples)); simpl; (done || lia).
Qed.

(** ** The single measurement when a transfer fails *)

Lemma burst_loop_crashed env (l : list Z) :
  fold_left (burst_step CHN_AMOUNT env) l None = None.
Proof. by induction l. Qed.

(** X18.  In the single measurement a failed transfer ends the program at
    the read through the null [data_buf]: [main] does not return and no
    file is written, not even with the ticks sampled so far. *)
Theorem single_measurement_transfer_failure env data0 fixed0 (k : nat) :
  Z.of_nat k < samples -> ioctl (env k) = None ->
  main samples CHN_AMOUNT threshold 0 env data0 fixed0 = Returns None.
Proof.
  intros Hk Hio. unfold main. change (0 =? 0) with true. cbv iota.
  unfold main_single, burst_loop.
  replace samples with (Z.of_nat k + (1 + (samples - Z.of_nat k - 1))) by lia.
  rewrite seqZ_app, seqZ_app by lia. rewrite !fold_left_app.
  change (seqZ (0 + Z.of_nat k) 1) with [0 + Z.of_nat k]. cbn [fold_left].
  assert (burst_step CHN_AMOUNT env
            (fold_left (burst_step CHN_AMOUNT env) (seqZ 0 (Z.of_nat k)) (Some data0))
            (0 + Z.of_nat k) = None) as ->.
  { unfold burst_step. rewrite Z.add_0_l, Nat2Z.id, Hio. simpl.
    destruct (fold_left _ _ _); [|done].
    unfold blocks. by destruct (Z.ltb_spec 0 (CHN_AMOUNT * 1)); [|lia]. }
  by rewrite burst_loop_crashed.
Qed.

End RunProperties.

(** * The further properties at concrete inputs *)

Lemma init_spi_writes_command_bytes_witness :
  exists tx' spitr,
    init_spi 4 shipped_channels true (fresh 16) = Some (tx', spitr)
    /\ take 8 tx' = [1; 128; -1; -1; 1; 144; -1; -1].
Proof.
  destruct (init_spi_writes_command_bytes 4 shipped_channels ltac:(lia) (fresh 16) eq_refl)
    as (tx' & spitr & Hinit & _ & _).
  exists tx', spitr. split; [exact Hinit|].
  vm_compute in Hinit. injection Hinit as <- _. reflexivity.
Defined.

Lemma init_spi_describes_transfers_witness :
  exists tx' spitr,
    init_spi 4 shipped_channels true (fresh 16) = Some (tx', spitr)
    /\ length spitr = 4%nat
    /\ cs_change <$> spitr = [1; 1; 1; 0].
Proof.
  destruct (init_spi_describes_transfers 4 shipped_channels ltac:(lia) (fresh 16))
    as (tx' & spitr & Hinit & Hlen & _).
  exists tx', spitr. split; [exact Hinit|]. split; [exact Hlen|].
  vm_compute in Hinit. injection Hinit as _ <-. reflexivity.
Defined.

Lemma command_encodes_channel_witness :
  shipped_channels !! Z.to_nat 2 = Some 2
  /\ command shipped_channels 2 = 128 + 16 * 2
  /\ Z.land (Z.shiftr (command shipped_channels 2) 4) 7 = 2.
Proof.
  split; [reflexivity|].
  destruct (command_encodes_channel shipped_channels 2 2 eq_refl ltac:(lia))
    as (Hcmd & _ & Hback).
  split; [exact Hcmd | exact Hback].
Defined.

Lemma third_byte_left_as_allocated_witness :
  exists tx' spitr,
    main_setup 4 shipped_channels true (fresh 16) = Some (tx', spitr)
    /\ tx' !! 2%nat = Some 0
    /\ tx' !! 6%nat = fresh 16 !! 6%nat.
Proof.
  destruct (third_byte_left_as_allocated 4 shipped_channels ltac:(lia) (fresh 16) eq_refl)
    as (tx' & spitr & Hsetup & Hthird).
  exists tx', spitr. split; [exact Hsetup|]. split.
  - apply (Hthird 0%nat). lia.
  - apply (Hthird 1%nat). lia.
Defined.

Lemma spi_transfer_readings_are_10_bit_witness :
  spi_transfer 2 (Some [255; 253; 244; 9; 0; 0; 7; 0]) = Some [500; 7]
  /\ Forall (fun v => 0 <= v <= 1023) [500; 7].
Proof.
  split; [reflexivity|].
  apply (spi_transfer_readings_are_10_bit 2 [255; 253; 244; 9; 0; 0; 7; 0] [500; 7]).
  - repeat constructor; lia.
  - reflexivity.
Defined.

Lemma rx_reading_decodes_frame_witness :
  rx_reading [255; 253; 244; 9] 0 = 500.
Proof.
  apply (rx_reading_decodes_frame [255; 253; 244; 9] 0 500 63); (lia || reflexivity).
Defined.


Lemma fix_buffer_forgets_old_window_witness :
  fix_buffer 6 2 small_ring (fresh 12) 2 = fix_buffer 6 2 small_ring small_ring 2.
Proof.
  apply (fix_buffer_forgets_old_window 6 2 ltac:(lia) ltac:(lia)
           small_ring (fresh 12) small_ring 2 eq_refl eq_refl eq_refl).
  lia.
Defined.

Lemma fix_buffer_composes_witness :
  fix_buffer 6 2 (fix_buffer 6 2 small_ring (fresh 12) 4) (fresh 12) 5
  = fix_buffer 6 2 small_ring (fresh 12) ((4 + 5) mod 6)
  /\ fix_buffer 6 2 (fix_buffer 6 2 small_ring (fresh 12) 4) (fresh 12) ((6 - 4) mod 6)
     = small_ring.
Proof.
  apply (fix_buffer_composes 6 2 ltac:(lia) ltac:(lia)
           small_ring (fresh 12) (fresh 12) (fresh 12) 4 5
           eq_refl eq_refl eq_refl eq_refl); lia.
Defined.

Lemma write_file_writes_whole_buffer_witness :
  exists rows,
    write_file 6 2 small_ring (env_small 0) = Some (Some rows)
    /\ length rows = 6%nat /\ concat rows = small_ring.
Proof.
  destruct (write_file_writes_whole_buffer 6 2 ltac:(lia) ltac:(lia)
              small_ring (env_small 0) eq_refl eq_refl eq_refl)
    as (rows & Hfile & Hlen & _ & Hcat).
  exists rows. split; [exact Hfile|]. split; [exact Hlen | exact Hcat].
Defined.

Lemma fprintf_failure_goes_unnoticed_witness :
  fprintf (env_small_full_disk 5) = false
  /\ (continuous 6 2 450 env_small (fresh 12) (fresh 12) 6).1
     = (continuous 6 2 450 env_small_full_disk (fresh 12) (fresh 12) 6).1.
Proof.
  split; [reflexivity|].
  apply (fprintf_failure_goes_unnoticed 6 2 450 env_small env_small_full_disk
           (fresh 12) (fresh 12) 6).
  intros k. split; reflexivity.
Defined.

Lemma loop_body_writes_one_slot_witness :
  loop_body 6 2 450 (env_small_early 1) small_idle_state
  = Next small_triggered_state None
  /\ st_i small_triggered_state = 2
  /\ st_data small_triggered_state !! 2%nat = Some 450
  /\ st_data small_triggered_state !! 4%nat = st_data small_idle_state !! 4%nat.
Proof.
  assert (loop_body 6 2 450 (env_small_early 1) small_idle_state
          = Next small_triggered_state None) as Hbody by reflexivity.
  destruct (loop_body_writes_one_slot 6 2 450 ltac:(lia) ltac:(lia)
              (env_small_early 1) small_idle_state small_triggered_state None
              ([450; 1] ≫= mcp3008_frame) eq_refl)
    as (Hi & _ & Hin & Hout); [simpl; lia | reflexivity | exact Hbody |].
  split; [exact Hbody|]. split; [exact Hi|]. split.
  - apply (Hin 0%nat). vm_compute. lia.
  - apply (Hout 4%nat). right. vm_compute. lia.
Defined.

Lemma ring_holds_latest_ticks_witness :
  continuous 6 2 450 env_small (fresh 12) (fresh 12) 6
  = (Running small_final_state,
     (continuous 6 2 450 env_small (fresh 12) (fresh 12) 6).2)
  /\ st_data small_final_state !! 7%nat = readings 2 (env_small 3) !! 1%nat.
Proof.
  assert (continuous 6 2 450 env_small (fresh 12) (fresh 12) 6
          = (Running small_final_state,
             (continuous 6 2 450 env_small (fresh 12) (fresh 12) 6).2)) as Hrun
    by (vm_compute; reflexivity).
  destruct (ring_holds_latest_ticks 6 2 450 ltac:(lia) ltac:(lia)
              env_small (fresh 12) (fresh 12) 6 small_final_state _
              eq_refl eq_refl Hrun) as [Hlatest _].
  split; [exact Hrun|].
  apply (Hlatest 3%nat 1%nat); simpl; lia.
Defined.

Lemma continuous_keeps_indices_in_range_witness :
  continuous 6 2 450 env_small (fresh 12) (fresh 12) 6
  = (Running small_final_state,
     (continuous 6 2 450 env_small (fresh 12) (fresh 12) 6).2)
  /\ 0 <= st_i small_final_state <= 6
  /\ wrap 6 (st_i small_final_state) = Z.of_nat 6 mod 6.
Proof.
  assert (continuous 6 2 450 env_small (fresh 12) (fresh 12) 6
          = (Running small_final_state,
             (continuous 6 2 450 env_small (fresh 12) (fresh 12) 6).2)) as Hrun
    by (vm_compute; reflexivity).
  destruct (continuous_keeps_indices_in_range 6 2 450 ltac:(lia) ltac:(lia)
              env_small (fresh 12) (fresh 12) 6 small_final_state _
              eq_refl eq_refl Hrun) as (Hi & Hslot & _).
  split; [exact Hrun|]. split; [exact Hi | exact Hslot].
Defined.

Lemma quiet_run_captures_nothing_witness :
  1 <= sustain 6
  /\ exists st,
       continuous 6 2 450 env_small (fresh 12) (fresh 12) 3 = (Running st, [])
       /\ st_s_counter st = 0 /\ st_data_fixed st = fresh 12.
Proof.
  assert (1 <= sustain 6) as Hs by (vm_compute; discriminate).
  split; [exact Hs|].
  apply (quiet_run_captures_nothing 6 2 450 ltac:(lia) ltac:(lia)
           env_small (fresh 12) (fresh 12) 3 eq_refl eq_refl Hs).
  - intros k _. discriminate.
  - intros k Hk.
    assert (k = 0 \/ k = 1 \/ k = 2)%nat as [->|[->| ->]] by lia; reflexivity.
Defined.

Lemma sustained_signal_captures_periodically_witness :
  3 <= sustain 6
  /\ (exists c, (5%nat, c)
                ∈ (continuous 6 2 450 env_small_loud (fresh 12) (fresh 12) 7).2)
  /\ ~ (exists c, (4%nat, c)
                  ∈ (continuous 6 2 450 env_small_loud (fresh 12) (fresh 12) 7).2).
Proof.
  assert (3 <= sustain 6) as Hs by (vm_compute; discriminate).
  assert (forall k, (k < 7)%nat ->
            ioctl (env_small_loud k) <> None /\ fopen (env_small_loud k) = true) as Hok.
  { intros k _. split; [discriminate | reflexivity]. }
  assert (forall k, (k < 7)%nat ->
            crossing 450 (readings 2 (env_small_loud k)) = true) as Hx.
  { intros k Hk.
    assert (k = 0 \/ k = 1 \/ k = 2 \/ k = 3 \/ k = 4 \/ k = 5 \/ k = 6)%nat
      as Hcases by lia.
    repeat destruct Hcases as [->|Hcases]; try subst k; reflexivity. }
  split; [exact Hs|]. split.
  - apply (sustained_signal_captures_periodically 6 2 450 ltac:(lia) ltac:(lia)
             env_small_loud (fresh 12) (fresh 12) 7 5 eq_refl eq_refl Hs Hok Hx).
    split; [lia | reflexivity].
  - intros Hin.
    apply (sustained_signal_captures_periodically 6 2 450 ltac:(lia) ltac:(lia)
             env_small_loud (fresh 12) (fresh 12) 7 4 eq_refl eq_refl Hs Hok Hx) in Hin.
    destruct Hin as [_ Hmod]. vm_compute in Hmod. discriminate.
Defined.

Lemma degenerate_bound_captures_every_tick_witness :
  sustain 1 <= 0
  /\ exists c, (2%nat, c) ∈ (continuous 1 2 450 env_small (fresh 2) (fresh 2) 4).2.
Proof.
  assert (sustain 1 <= 0) as Hs by (vm_compute; discriminate).
  split; [exact Hs|].
  apply (degenerate_bound_captures_every_tick 1 2 450 ltac:(lia) ltac:(lia)
           env_small (fresh 2) (fresh 2) 4 2 eq_refl eq_refl Hs).
  - intros k _. split; [discriminate | reflexivity].
  - lia.
Defined.

Lemma single_measurement_transfer_failure_witness :
  ioctl (env_small_broken 2) = None
  /\ main 6 2 450 0 env_small_broken (fresh 12) (fresh 12) = Returns None.
Proof.
  split; [reflexivity|].
  apply (single_measurement_transfer_failure 6 2 450 ltac:(lia) ltac:(lia)
           env_small_broken (fresh 12) (fresh 12) 2); [lia | reflexivity].
Defined.
